(** * bce-service-bos-transport: resumable transfer engine

    A shallow embedding of the chunk planner ([MultiTransport._decompose]),
    the download [Transport] state machine, the per-task part queue and the
    task [Dispatcher], together with the properties established for them. *)

From stdpp Require Import gmap strings list fin_maps.
From Stdlib Require Import ZArith Lia DecimalString.

Local Open Scope Z_scope.

(** ** JavaScript numbers, as far as the planner needs them

    Every number the planner receives is an integer (a byte count or a part
    count).  The only operation that leaves the integers is the division in
    [Math.ceil(totalSize / (maxParts - orderedParts.length))]: dividing by
    zero yields [Infinity], [-Infinity] or [NaN].  Integers are taken to be
    exactly representable (below 2^53), so [Math.ceil] of a quotient is the
    integer ceiling. *)
Module JsNum.

Inductive num : Type :=
  | Int (z : Z)
  | PosInf
  | NegInf
  | NaN.

(** [Math.ceil(a / b)] on integers [a], [b]. *)
Definition ceil_div (a b : Z) : num :=
  if b =? 0 then
    (if 0 <? a then PosInf else if a <? 0 then NegInf else NaN)
  else Int (- ((- a) / b)).

(** [Math.max(x, y)] *)
Definition max (x y : num) : num :=
  match x, y with
  | NaN, _ | _, NaN => NaN
  | PosInf, _ | _, PosInf => PosInf
  | NegInf, v | v, NegInf => v
  | Int a, Int b => Int (Z.max a b)
  end.

(** [Math.min(x, y)] *)
Definition min (x y : num) : num :=
  match x, y with
  | NaN, _ | _, NaN => NaN
  | NegInf, _ | _, NegInf => NegInf
  | PosInf, v | v, PosInf => v
  | Int a, Int b => Int (Z.min a b)
  end.

(** [x + y] *)
Definition add (x y : num) : num :=
  match x, y with
  | NaN, _ | _, NaN => NaN
  | PosInf, NegInf | NegInf, PosInf => NaN
  | PosInf, _ | _, PosInf => PosInf
  | NegInf, _ | _, NegInf => NegInf
  | Int a, Int b => Int (a + b)
  end.

(** [x - y] *)
Definition sub (x y : num) : num :=
  match x, y with
  | NaN, _ | _, NaN => NaN
  | PosInf, PosInf | NegInf, NegInf => NaN
  | PosInf, _ | _, NegInf => PosInf
  | NegInf, _ | _, PosInf => NegInf
  | Int a, Int b => Int (a - b)
  end.

(** [x < y] *)
Definition lt (x y : num) : bool :=
  match x, y with
  | NaN, _ | _, NaN => false
  | Int a, Int b => a <? b
  | NegInf, NegInf | PosInf, _ | _, NegInf => false
  | NegInf, _ | _, PosInf => true
  end.

(** [x === y] on numbers *)
Definition eqb (x y : num) : bool :=
  match x, y with
  | Int a, Int b => a =? b
  | PosInf, PosInf | NegInf, NegInf => true
  | _, _ => false
  end.

(** [x <= y] *)
Definition le (x y : num) : bool := lt x y || eqb x y.

(** [x >= y] *)
Definition ge (x y : num) : bool := le y x.

(** [x > 0] *)
Definition gt0 (x : num) : bool :=
  match x with
  | Int a => 0 <? a
  | PosInf => true
  | NegInf | NaN => false
  end.

End JsNum.

(** ** Task states *)
Module Headers.

(** Modelled from the spec: [TransportStatus] is imported from
    [../headers], which is not among the sources.  The spec lists the states
    as UnStarted, Running, Paused, Finished and Error; the code compares
    them with [===] only. *)
Inductive TransportStatus : Type :=
  | UnStarted
  | Running
  | Paused
  | Finished
  | Error.

#[global] Instance TransportStatus_eq_dec : EqDecision TransportStatus.
Proof. solve_decision. Defined.

End Headers.

(** ** [lodash.debounce(func, wait)]

    The trailing-edge debounce of lodash, on a logical clock in
    milliseconds: every call postpones the single pending invocation of
    [func] to [wait] ms after that call; the timer invokes [func] once the
    clock has reached the due time. *)
Module Debounce.

Record debounced : Type := mkDebounced {
  wait : Z;
  due : option Z;
}.

Definition create (wait : Z) : debounced := mkDebounced wait None.

(** Calling the debounced function at time [now]. *)
Definition call (now : Z) (d : debounced) : debounced :=
  mkDebounced (wait d) (Some (now + wait d)).

(** The timers run at time [now]: [true] when [func] is invoked. *)
Definition expire (now : Z) (d : debounced) : bool * debounced :=
  match due d with
  | Some t => if t <=? now then (true, mkDebounced (wait d) None) else (false, d)
  | None => (false, d)
  end.

End Debounce.

(** ** [async.queue(worker, concurrency)]

    The task queue of the async library: pending tasks in order, and the
    workers that were started and have not called back yet.  Each started
    worker receives a callback of its own, identified here by a number; the
    library wraps it so that a second call throws. *)
Module AsyncQueue.

Section Queue.
Context {A : Type}.

Record queue : Type := mkQueue {
  concurrency : nat;
  _tasks : list A;
  workersList : list (nat * A);
  nextCallback : nat;
}.

Definition create (concurrency : nat) : queue := mkQueue concurrency [] [] 0.

Definition numRunning (q : queue) : nat := length (workersList q).

(** [q.push(tasks)] *)
Definition push (xs : list A) (q : queue) : queue :=
  mkQueue (concurrency q) (_tasks q ++ xs) (workersList q) (nextCallback q).

(** [q.unshift(task)] *)
Definition unshift (x : A) (q : queue) : queue :=
  mkQueue (concurrency q) (x :: _tasks q) (workersList q) (nextCallback q).

(** [q.kill()]: the pending tasks are dropped. *)
Definition kill (q : queue) : queue :=
  mkQueue (concurrency q) [] (workersList q) (nextCallback q).

Definition set_tasks (xs : list A) (q : queue) : queue :=
  mkQueue (concurrency q) xs (workersList q) (nextCallback q).

(** One turn of the loop
    [while (numRunning < concurrency && _tasks.length)] of [q.process]:
    the first pending task becomes a worker with a fresh callback. *)
Definition start_one (q : queue) : option (nat * A * queue) :=
  if (numRunning q <? concurrency q)%nat then
    match _tasks q with
    | x :: rest =>
        Some (nextCallback q, x,
              mkQueue (concurrency q) rest
                (workersList q ++ [(nextCallback q, x)]) (S (nextCallback q)))
    | [] => None
    end
  else None.

(** [q.process()]: the loop itself; it returns the workers it started. *)
Fixpoint process_loop (fuel : nat) (q : queue) : list (nat * A) * queue :=
  match fuel with
  | O => ([], q)
  | S fuel' =>
      match start_one q with
      | Some (cb, x, q') =>
          let '(started, q'') := process_loop fuel' q' in
          ((cb, x) :: started, q'')
      | None => ([], q)
      end
  end.

Definition process (q : queue) : list (nat * A) * queue :=
  process_loop (length (_tasks q)) q.

Definition is_worker (cb : nat) (q : queue) : bool :=
  existsb (fun w => (w.1 =? cb)%nat) (workersList q).

(** The callback [cb] is called: its worker leaves the queue.  [None] is
    the exception [Callback was already called]. *)
Definition callback (cb : nat) (q : queue) : option queue :=
  if is_worker cb q then
    Some (mkQueue (concurrency q) (_tasks q)
            (filter (fun w => w.1 <> cb) (workersList q)) (nextCallback q))
  else None.

Definition idle (q : queue) : bool :=
  match _tasks q, workersList q with
  | [], [] => true
  | _, _ => false
  end.

(** *** The bound on running workers *)

Lemma start_one_bound q cb x q' :
  start_one q = Some (cb, x, q') ->
  (numRunning q < concurrency q)%nat /\ numRunning q' = S (numRunning q) /\
  concurrency q' = concurrency q /\ _tasks q = x :: _tasks q'.
Proof.
  unfold start_one, numRunning.
  destruct (_ <? _)%nat eqn:E; [|discriminate].
  apply Nat.ltb_lt in E. destruct (_tasks q) as [|y rest] eqn:Et; [discriminate|].
  intros [= <- <- <-]. simpl. rewrite length_app. simpl. repeat split; lia.
Qed.

Lemma callback_bound q cb q' :
  callback cb q = Some q' ->
  (numRunning q' <= numRunning q)%nat /\ concurrency q' = concurrency q /\
  _tasks q' = _tasks q.
Proof.
  unfold callback, numRunning. destruct (is_worker cb q); [|discriminate].
  intros [= <-]. simpl. repeat split. apply length_filter.
Qed.

Lemma process_loop_bound fuel : forall q started q',
  process_loop fuel q = (started, q') ->
  (numRunning q <= concurrency q)%nat ->
  (numRunning q' <= concurrency q')%nat /\ concurrency q' = concurrency q /\
  _tasks q = map snd started ++ _tasks q'.
Proof.
  induction fuel as [|fuel IH]; intros q started q' H Hle; simpl in H.
  - injection H as <- <-. auto.
  - destruct (start_one q) as [[[cb x] q1]|] eqn:E.
    + destruct (process_loop fuel q1) as [l q2] eqn:E2. injection H as <- <-.
      apply start_one_bound in E as (Hlt & Hn & Hc & Ht).
      destruct (IH _ _ _ E2) as (H1 & H2 & H3); [lia|].
      repeat split; [done|congruence|]. simpl. rewrite Ht, H3. done.
    + injection H as <- <-. auto.
Qed.

End Queue.

Arguments queue : clear implicits.

End AsyncQueue.

(** ** Download: the [Transport] state machine

    Methods are functions from the object to the updated object and the
    list of actions they perform, in order.  Callbacks that the runtime
    delivers later (a settled promise, a stream event, a timer) are
    functions of the same shape. *)
Module Transport.

Import Headers JsNum.

Definition show_Z (z : Z) : string := NilZero.string_of_int (Z.to_int z).

(** [util.format('%s', x)] for a number. *)
Definition show_num (x : num) : string :=
  match x with
  | Int z => show_Z z
  | PosInf => "Infinity"
  | NegInf => "-Infinity"
  | NaN => "NaN"
  end.

(** What [_checkError] inspects of a rejected value: an object with the
    properties it reads ([None] for a property that is absent). *)
Record ErrorObject : Type := mkErrorObject {
  instanceofError : bool;
  message : option string;
  stack : option string;
  status_code : option Z;
  code : option string;
}.

Inductive Err : Type :=
  | ErrStr (s : string)
  | ErrObj (o : ErrorObject).

(** [err.message + err.stack] *)
Definition message_plus_stack (o : ErrorObject) : string :=
  match message o, stack o with
  | None, None => "NaN"
  | m, s => default "undefined" m +:+ default "undefined" s
  end.

(** Events emitted by a transport, with their payload. *)
Inductive Event : Type :=
  | EvRate (uuid objectKey : string) (rateBytes rateTime bytesWritten : Z)
  | EvPause (uuid : string)
  | EvFinish (uuid objectKey : string)
  | EvError (uuid error : string).

Inductive Action : Type :=
  | Emit (e : Event)
  | MkdirpDirname (localPath : string)
  | CreateWriteStream (localPath flags : string)
  | StreamEnd
  | GetObjectMetadata (bucketName key : string)
  | SendGet (bucketName key Range : string)
  | NotifyProgress (rateBytes rateTime bytesWritten : Z).

(** The write stream opened by [resume], with the variables its handlers
    close over. *)
Record WriteStream : Type := mkWriteStream {
  flags : string;
  ended : bool;
  startDate : Z;
  begin : Z;
}.

(** The object.  [_uploadId] and [_uploadedSize] are the session fields
    that the multipart subclass keeps on the same object; no method of this
    module assigns them. *)
Record Transport : Type := mkTransport {
  _uuid : string;
  _objectKey : string;
  _localPath : string;
  _bucketName : string;
  _state : TransportStatus;
  _outputStream : option WriteStream;
  _checkAlive : Debounce.debounced;
  _uploadId : option string;
  _uploadedSize : option num;
}.

Definition set_state (s : TransportStatus) (t : Transport) : Transport :=
  mkTransport (_uuid t) (_objectKey t) (_localPath t) (_bucketName t) s
    (_outputStream t) (_checkAlive t) (_uploadId t) (_uploadedSize t).

Definition set_outputStream (o : option WriteStream) (t : Transport) : Transport :=
  mkTransport (_uuid t) (_objectKey t) (_localPath t) (_bucketName t) (_state t)
    o (_checkAlive t) (_uploadId t) (_uploadedSize t).

Definition set_checkAlive (d : Debounce.debounced) (t : Transport) : Transport :=
  mkTransport (_uuid t) (_objectKey t) (_localPath t) (_bucketName t) (_state t)
    (_outputStream t) d (_uploadId t) (_uploadedSize t).

(** [this._outputStream.end()] *)
Definition end_outputStream (t : Transport) : Transport :=
  set_outputStream
    ((fun s => mkWriteStream (flags s) true (startDate s) (begin s)) <$> _outputStream t) t.

(** [constructor(credentials, config)]; [_checkAlive] is the class field
    [debounce(() => this._onTimeout(), 10e3)]. *)
Definition new (uuid bucketName objectKey localPath : string) : Transport :=
  mkTransport uuid objectKey localPath bucketName UnStarted None
    (Debounce.create 10000) None None.

Definition isRunning (t : Transport) : bool := bool_decide (_state t = Running).

Definition isUnStarted (t : Transport) : bool := bool_decide (_state t = UnStarted).

Definition _checkFinish (t : Transport) : Transport * list Action :=
  if isRunning t then
    (set_state Finished t, [Emit (EvFinish (_uuid t) (_objectKey t))])
  else (t, []).

Definition _checkError (err : Err) (t : Transport) : Transport * list Action :=
  if isRunning t then
    let t' := set_state Error t in
    match err with
    | ErrStr s => (t', [Emit (EvError (_uuid t) s)])
    | ErrObj o =>
        if instanceofError o || bool_decide (is_Some (message o)) then
          (t', [Emit (EvError (_uuid t) (message_plus_stack o))])
        else
          match status_code o with
          | Some c => (t', [Emit (EvError (_uuid t) ("Server code = " +:+ show_Z c))])
          | None => (t', [Emit (EvError (_uuid t) "未知错误")])
          end
    end
  else (t, []).

(** [new Error('网络连接超时')]; the stack text is the runtime's. *)
Definition timeoutError (stack : string) : Err :=
  ErrObj (mkErrorObject true (Some "网络连接超时") (Some stack) None None).

Definition _onTimeout (stack : string) (t : Transport) : Transport * list Action :=
  match _outputStream t with
  | Some _ =>
      if isRunning t then
        let '(t', acts) := _checkError (timeoutError stack) t in
        (end_outputStream t', acts ++ [StreamEnd])
      else (t, [])
  | None => (t, [])
  end.

(** [resume(begin = 0, end = 0)], called at time [now]. *)
Definition resume (now begin : Z) (end_ : num) (t : Transport) : Transport * list Action :=
  let flags := if begin =? 0 then "w" else "a" in
  let Range :=
    if begin =? 0 then "" else "bytes=" +:+ show_Z begin +:+ "-" +:+ show_num end_ in
  (set_outputStream (Some (mkWriteStream flags false now begin)) t,
   [CreateWriteStream (_localPath t) flags;
    SendGet (_bucketName t) (_objectKey t) Range]).

(** [outputStream.on('drain', ...)] at time [now], with the stream's
    [bytesWritten]: the throttled notifier is called and the watchdog is
    postponed. *)
Definition onDrain (now bytesWritten : Z) (t : Transport) : Transport * list Action :=
  match _outputStream t with
  | Some s =>
      (set_checkAlive (Debounce.call now (_checkAlive t)) t,
       [NotifyProgress bytesWritten (now - startDate s) (bytesWritten + begin s)])
  | None => (t, [])
  end.

(** The throttled notifier lets a call through. *)
Definition onRate (rateBytes rateTime bytesWritten : Z) (t : Transport)
    : Transport * list Action :=
  (t, [Emit (EvRate (_uuid t) (_objectKey t) rateBytes rateTime bytesWritten)]).

(** [outputStream.on('error', ...)] *)
Definition onStreamError (err : ErrorObject) (t : Transport) : Transport * list Action :=
  if bool_decide (code err = Some "EACCES") then _checkError (ErrObj err) t
  else (t, []).

(** The two continuations of [sendRequest('GET', ...)]. *)
Definition onGetResolved (t : Transport) : Transport * list Action := _checkFinish t.

Definition onGetRejected (err : Err) (t : Transport) : Transport * list Action :=
  _checkError err t.

(** The timers run at time [now]. *)
Definition onTimer (now : Z) (stack : string) (t : Transport) : Transport * list Action :=
  let '(fired, d) := Debounce.expire now (_checkAlive t) in
  let t' := set_checkAlive d t in
  if fired then _onTimeout stack t' else (t', []).

Definition pause (t : Transport) : Transport * list Action :=
  let t' := set_state Paused t in
  match _outputStream t' with
  | Some _ => (end_outputStream t', [StreamEnd; Emit (EvPause (_uuid t))])
  | None => (t', [Emit (EvPause (_uuid t))])
  end.

(** What [start] finds at [_localPath]: nothing (and then [mkdirp.sync]
    succeeds or throws), or a file with its [size] and [mtime.getTime()]. *)
Inductive LocalFile : Type :=
  | Absent (mkdirpThrows : option Err)
  | Present (size mtime : Z).

(** The result of [_fetchMetadata], as far as [start] reads it.
    [+headers['content-length']] and [Date.getTime()] may be [NaN]. *)
Record Metadata : Type := mkMetadata {
  xMetaSize : num;
  xMetaModifiedTime : num;
}.

(** [start()] up to the point where it waits for the metadata. *)
Definition start (now : Z) (file : LocalFile) (t : Transport) : Transport * list Action :=
  let t := set_state Running t in
  match file with
  | Absent None =>
      let '(t', acts) := resume now 0 (Int 0) t in
      (t', MkdirpDirname (_localPath t) :: acts)
  | Absent (Some ex) =>
      let '(t', acts) := _checkError ex t in
      (t', MkdirpDirname (_localPath t) :: acts)
  | Present _ _ => (t, [GetObjectMetadata (_bucketName t) (_objectKey t)])
  end.

(** The first continuation of [this._fetchMetadata().then(...)]. *)
Definition start_onMetadata (now size mtime : Z) (res : Metadata) (t : Transport)
    : Transport * list Action :=
  if ge (Int size) (xMetaSize res) || le (Int mtime) (xMetaModifiedTime res) then
    resume now 0 (Int 0) t
  else if lt (Int size) (xMetaSize res) then
    resume now size (xMetaSize res) t
  else _checkFinish t.

(** The second continuation. *)
Definition start_onMetadataError (err : Err) (t : Transport) : Transport * list Action :=
  _checkError err t.

(** [start()] on a present file whose metadata arrive next. *)
Definition start_present (now size mtime : Z) (res : Metadata) (t : Transport)
    : Transport * list Action :=
  let '(t1, a1) := start now (Present size mtime) t in
  let '(t2, a2) := start_onMetadata now size mtime res t1 in
  (t2, a1 ++ a2).

Definition opens_stream (a : Action) : bool :=
  match a with CreateWriteStream _ _ => true | _ => false end.

Definition reads_network (a : Action) : bool :=
  match a with SendGet _ _ _ => true | _ => false end.

Definition is_error_event (a : Action) : bool :=
  match a with Emit (EvError _ _) => true | _ => false end.

Definition is_terminal_event (a : Action) : bool :=
  match a with Emit (EvError _ _) | Emit (EvFinish _ _) => true | _ => false end.

(** A completion reaching the transport: the request finished or an error
    was handed to [_checkError]. *)
Inductive Completion : Type :=
  | Completed
  | Failed (err : Err).

Definition settle (c : Completion) (t : Transport) : Transport * list Action :=
  match c with
  | Completed => _checkFinish t
  | Failed err => _checkError err t
  end.

Fixpoint settle_all (cs : list Completion) (t : Transport) : Transport * list Action :=
  match cs with
  | [] => (t, [])
  | c :: rest =>
      let '(t1, a1) := settle c t in
      let '(t2, a2) := settle_all rest t1 in
      (t2, a1 ++ a2)
  end.

(** A transport used in the examples. *)
Definition sample : Transport := new "task-1" "bucket" "dir/object" "/data/object".

Definition ENOSPC : ErrorObject :=
  mkErrorObject true (Some "ENOSPC: no space left on device, write")
    (Some "Error: ENOSPC") None (Some "ENOSPC").

Definition EACCES : ErrorObject :=
  mkErrorObject true (Some "EACCES: permission denied, open") (Some "Error: EACCES")
    None (Some "EACCES").

(** *** Basic facts *)

Lemma isRunning_true t : isRunning t = true <-> _state t = Running.
Proof. unfold isRunning. apply bool_decide_eq_true. Qed.

Lemma isRunning_false t : isRunning t = false <-> _state t <> Running.
Proof. unfold isRunning. apply bool_decide_eq_false. Qed.

Lemma isRunning_set_state s t : isRunning (set_state s t) = bool_decide (s = Running).
Proof. reflexivity. Qed.

Lemma _checkFinish_not_running t : isRunning t = false -> _checkFinish t = (t, []).
Proof. unfold _checkFinish. intros ->. reflexivity. Qed.

Lemma _checkError_not_running err t : isRunning t = false -> _checkError err t = (t, []).
Proof. unfold _checkError. intros ->. reflexivity. Qed.

(** While running, [_checkError] moves to Error and emits one error event
    with the task id and a description. *)
Lemma _checkError_running err t :
  isRunning t = true ->
  exists desc, _checkError err t = (set_state Error t, [Emit (EvError (_uuid t) desc)]).
Proof.
  unfold _checkError. intros ->. destruct err as [s|o]; [eauto|].
  destruct (_ || _); [eauto|]. destruct (status_code o); eauto.
Qed.

Lemma settle_not_running c t : isRunning t = false -> settle c t = (t, []).
Proof.
  destruct c; simpl; auto using _checkFinish_not_running, _checkError_not_running.
Qed.

Lemma settle_all_not_running cs : forall t,
  isRunning t = false -> settle_all cs t = (t, []).
Proof.
  induction cs as [|c cs IH]; intros t H; simpl; [reflexivity|].
  rewrite (settle_not_running c t H), (IH t H). reflexivity.
Qed.

(** A completion that acts leaves the transport in a terminal state and
    emits exactly one terminal event. *)
Lemma settle_running c t :
  isRunning t = true ->
  isRunning (settle c t).1 = false /\
  length (filter (fun a => is_terminal_event a = true) (settle c t).2) = 1%nat.
Proof.
  intros H. destruct c as [|err]; simpl.
  - unfold _checkFinish. rewrite H. simpl. split; reflexivity.
  - destruct (_checkError_running err t H) as [desc ->]. simpl. split; reflexivity.
Qed.

(** *** The decision of [start] on a present file *)

Lemma start_present_unfold now size mtime res t :
  start_present now size mtime res t =
  let t1 := set_state Running t in
  let '(t2, a2) := start_onMetadata now size mtime res t1 in
  (t2, GetObjectMetadata (_bucketName t) (_objectKey t) :: a2).
Proof.
  unfold start_present, start. simpl.
  destruct (start_onMetadata _ _ _ _ _). reflexivity.
Qed.

(** [start] reaches Finished from this decision only through its last
    branch, which a numeric remote size never selects: the remote size must
    be [NaN]. *)
Lemma start_present_finished_nan now size mtime res t :
  _state (start_present now size mtime res t).1 = Finished ->
  xMetaSize res = NaN.
Proof.
  rewrite start_present_unfold. cbv zeta. unfold start_onMetadata.
  destruct (ge _ _ || le _ _) eqn:E1; [simpl; discriminate|].
  destruct (lt _ _) eqn:E2; [simpl; discriminate|].
  intros _. apply orb_false_iff in E1 as [E1 _].
  destruct (xMetaSize res) as [z| | |]; simpl in *; try discriminate; [|reflexivity].
  unfold ge, le in E1. simpl in E1. apply orb_false_iff in E1 as [E1 E1'].
  apply Z.ltb_ge in E1, E2. apply Z.eqb_neq in E1'. lia.
Qed.

(** Equal sizes with a newer local file: the first test already holds, so
    the download restarts. *)
Example start_equal_size_newer_restarts :
  start_present 100 7 9 (mkMetadata (Int 7) (Int 5)) sample =
  (set_outputStream (Some (mkWriteStream "w" false 100 0)) (set_state Running sample),
   [GetObjectMetadata "bucket" "dir/object";
    CreateWriteStream "/data/object" "w";
    SendGet "bucket" "dir/object" ""]).
Proof. reflexivity. Qed.

(** A smaller local file that is newer than the remote object is resumed
    with a range request. *)
Example start_smaller_newer_resumes :
  start_present 100 3 9 (mkMetadata (Int 7) (Int 5)) sample =
  (set_outputStream (Some (mkWriteStream "a" false 100 3)) (set_state Running sample),
   [GetObjectMetadata "bucket" "dir/object";
    CreateWriteStream "/data/object" "a";
    SendGet "bucket" "dir/object" "bytes=3-7"]).
Proof. reflexivity. Qed.

(** C1 (as amended). On a present file, [start] goes directly to Finished
    only when the local modification time is not at or before the remote
    one, and then it opens no write stream and issues no GET; when the
    local time is at or before the remote one it restarts the download from
    offset 0, with a truncating write stream and a GET without range. *)
Theorem start_present_decision (now size mtime : Z) (res : Metadata) (t : Transport) :
  (le (Int mtime) (xMetaModifiedTime res) = true ->
   start_present now size mtime res t =
   (set_outputStream (Some (mkWriteStream "w" false now 0)) (set_state Running t),
    [GetObjectMetadata (_bucketName t) (_objectKey t);
     CreateWriteStream (_localPath t) "w";
     SendGet (_bucketName t) (_objectKey t) ""])) /\
  (_state (start_present now size mtime res t).1 = Finished ->
   le (Int mtime) (xMetaModifiedTime res) = false /\
   existsb opens_stream (start_present now size mtime res t).2 = false /\
   existsb reads_network (start_present now size mtime res t).2 = false).
Proof.
  rewrite start_present_unfold. cbv zeta. unfold start_onMetadata. split.
  - intros ->. rewrite orb_true_r. reflexivity.
  - destruct (ge _ _ || le _ _) eqn:E1; [simpl; discriminate|].
    destruct (lt _ _) eqn:E2; [simpl; discriminate|].
    apply orb_false_iff in E1 as [_ E1]. intros _. split; [exact E1|].
    unfold _checkFinish. simpl. split; reflexivity.
Qed.

Lemma start_present_decision_witness :
  start_present 100 0 5 (mkMetadata (Int 0) (Int 5)) sample =
  (set_outputStream (Some (mkWriteStream "w" false 100 0)) (set_state Running sample),
   [GetObjectMetadata "bucket" "dir/object";
    CreateWriteStream "/data/object" "w";
    SendGet "bucket" "dir/object" ""]).
Proof.
  apply (start_present_decision 100 0 5 (mkMetadata (Int 0) (Int 5)) sample).
  reflexivity.
Defined.

(** C1 fails as stated: with a 0-byte local file, a 0-byte remote object
    and equal modification times, [start] stays Running, opens a write
    stream and issues a GET. *)
Lemma start_zero_bytes_equal_mtimes_not_finished :
  _state (start_present 100 0 5 (mkMetadata (Int 0) (Int 5)) sample).1 <> Finished /\
  existsb opens_stream (start_present 100 0 5 (mkMetadata (Int 0) (Int 5)) sample).2 = true /\
  existsb reads_network (start_present 100 0 5 (mkMetadata (Int 0) (Int 5)) sample).2 = true.
Proof. repeat split. discriminate. Qed.

(** C4 (as amended). While the task is Running, a rejected GET, a rejected
    metadata fetch and a write-stream error whose code is EACCES each move
    it to Error and emit one error event carrying the task id and a
    description; a write-stream error with any other code is ignored. *)
Theorem running_errors_notified (t : Transport) :
  isRunning t = true ->
  (forall err, exists desc,
      onGetRejected err t = (set_state Error t, [Emit (EvError (_uuid t) desc)])) /\
  (forall err, exists desc,
      start_onMetadataError err t = (set_state Error t, [Emit (EvError (_uuid t) desc)])) /\
  (forall o, code o = Some "EACCES" -> exists desc,
      onStreamError o t = (set_state Error t, [Emit (EvError (_uuid t) desc)])) /\
  (forall o, code o <> Some "EACCES" -> onStreamError o t = (t, [])).
Proof.
  intros H. repeat split.
  - intros err. apply _checkError_running, H.
  - intros err. apply _checkError_running, H.
  - intros o Ho. unfold onStreamError. rewrite bool_decide_eq_true_2 by exact Ho.
    apply _checkError_running, H.
  - intros o Ho. unfold onStreamError. rewrite bool_decide_eq_false_2 by exact Ho.
    reflexivity.
Qed.

Lemma running_errors_notified_witness :
  exists desc,
    onStreamError EACCES (set_state Running sample) =
    (set_state Error (set_state Running sample), [Emit (EvError "task-1" desc)]).
Proof.
  destruct (running_errors_notified (set_state Running sample) eq_refl)
    as (_ & _ & H & _).
  exact (H EACCES eq_refl).
Defined.

(** C4 fails as stated: a running download whose write stream reports
    ENOSPC emits nothing and stays Running. *)
Lemma stream_error_ENOSPC_swallowed :
  let t := (start 100 (Absent None) sample).1 in
  isRunning t = true /\ onStreamError ENOSPC t = (t, []).
Proof. split; reflexivity. Qed.

(** C10. [_checkFinish] and [_checkError] act only on a Running transport:
    in any other state a sequence of late completions changes nothing and
    emits nothing; and from any state, a sequence of completions emits at
    most one finish or error event. *)
Theorem terminal_transitions_guarded (t : Transport) (cs : list Completion) :
  (_state t <> Running -> settle_all cs t = (t, [])) /\
  (length (filter (fun a => is_terminal_event a = true) (settle_all cs t).2) <= 1)%nat.
Proof.
  split.
  - intros H. apply settle_all_not_running, isRunning_false, H.
  - destruct cs as [|c cs]; simpl; [lia|].
    destruct (isRunning t) eqn:E.
    + destruct (settle_running c t E) as [Hs Hn].
      destruct (settle c t) as [t1 a1]. simpl in *.
      rewrite (settle_all_not_running cs t1 Hs), app_nil_r. simpl. lia.
    + rewrite (settle_not_running c t E), (settle_all_not_running cs t E). simpl. lia.
Qed.

Lemma terminal_transitions_guarded_witness :
  settle_all [Completed; Failed (ErrStr "late"); Completed] (pause sample).1 =
  ((pause sample).1, []).
Proof.
  apply (terminal_transitions_guarded (pause sample).1
           [Completed; Failed (ErrStr "late"); Completed]).
  discriminate.
Defined.

End Transport.

(** ** Upload: the chunk planner of [MultiTransport] *)
Module MultiTransport.

Import JsNum.

(** [const kPartSize = 20 * 1024 * 1024;] *)
Definition kPartSize : Z := 20 * 1024 * 1024.

(** An element of [remainParts]: [{partNumber, partSize, start}]. *)
Record Part : Type := mkPart {
  partNumber : Z;
  partSize : num;
  start : num;
}.

(** The [while (leftSize > 0)] loop of [_decompose].  [fuel] bounds the
    number of iterations; [None] means the bound was reached with
    [leftSize] still positive. *)
Fixpoint decompose_loop (fuel : nat) (averagePartSize leftSize offset : num)
    (partNumber : Z) : option (list Part) :=
  if gt0 leftSize then
    match fuel with
    | O => None
    | S fuel' =>
        let partSize := min leftSize averagePartSize in
        match decompose_loop fuel' averagePartSize
                (sub leftSize partSize) (add offset partSize) (partNumber + 1) with
        | Some rest => Some (mkPart partNumber partSize offset :: rest)
        | None => None
        end
    end
  else Some [].

(** Iterations granted to the loop: each iteration with a finite
    [averagePartSize] removes at least [kPartSize] bytes or all that is
    left, so [leftSize / kPartSize + 1] iterations always suffice
    (see [_decompose_total]). *)
Definition decompose_fuel (uploadSize totalSize : Z) : nat :=
  S (Z.to_nat ((totalSize - uploadSize) / kPartSize)).

(** [_decompose(orderedParts, maxParts, uploadSize, totalSize)].  Only the
    length of [orderedParts] is read. *)
Definition _decompose {A : Type} (orderedParts : list A)
    (maxParts uploadSize totalSize : Z) : option (list Part) :=
  let minPartSize := ceil_div totalSize (maxParts - Z.of_nat (length orderedParts)) in
  let averagePartSize := max (Int kPartSize) minPartSize in
  let leftSize := Int (totalSize - uploadSize) in
  let offset := Int uploadSize in
  let partNumber := Z.of_nat (length orderedParts) + 1 in
  decompose_loop (decompose_fuel uploadSize totalSize)
    averagePartSize leftSize offset partNumber.

(** Sum of the [partSize] fields. *)
Definition sum_sizes (ps : list Part) : num :=
  foldr (fun p acc => add (partSize p) acc) (Int 0) ps.

(** Every part starts where the previous one ended, the first at [o]. *)
Fixpoint contiguous_from (o : num) (ps : list Part) : Prop :=
  match ps with
  | [] => True
  | p :: rest => start p = o /\ contiguous_from (add o (partSize p)) rest
  end.

(** Part numbers ascend by one from [n]. *)
Fixpoint numbered_from (n : Z) (ps : list Part) : Prop :=
  match ps with
  | [] => True
  | p :: rest => partNumber p = n /\ numbered_from (n + 1) rest
  end.

Definition MiB : Z := 1024 * 1024.

(** *** The part queue of [resume] and the upload watchdog

    Of the base fields this part only reads the identity and session fields
    and the debounce state of the overriding class field [_checkAlive]. *)

(** [fs.createReadStream(this._localPath, {start, end})] *)
Record ReadStream : Type := mkReadStream {
  rs_start : num;
  rs_end : num;
}.

(** The promise returned by [resume]. *)
Inductive Promise : Type :=
  | Pending
  | Resolved
  | Rejected (err : Transport.Err).

(** Modelled from the spec: the base class of [MultiTransport] is the
    uploader's [./transport], which is not among the sources; the spec
    describes one base state machine shared by both directions, so [base]
    holds the fields of [Transport.Transport].  [_queue] and [_stream] are
    the fields the subclass adds. *)
Record MultiTransport : Type := mkMultiTransport {
  base : Transport.Transport;
  _queue : option (AsyncQueue.queue Part);
  _stream : option ReadStream;
  resumed : Promise;
}.

Inductive Action : Type :=
  | CreateReadStream (localPath : string) (start end_ : num)
  | SendPut (bucketName key : string) (partNumber : Z) (uploadId : option string)
      (contentLength : num)
  | EmitProgress (rate : Z) (bytesWritten : num) (uuid : string)
  | StreamEmitAbort.

Definition set_base (b : Transport.Transport) (mt : MultiTransport) : MultiTransport :=
  mkMultiTransport b (_queue mt) (_stream mt) (resumed mt).

Definition set_queue (q : option (AsyncQueue.queue Part)) (mt : MultiTransport)
    : MultiTransport :=
  mkMultiTransport (base mt) q (_stream mt) (resumed mt).

Definition set_stream (s : option ReadStream) (mt : MultiTransport) : MultiTransport :=
  mkMultiTransport (base mt) (_queue mt) s (resumed mt).

Definition set_resumed (p : Promise) (mt : MultiTransport) : MultiTransport :=
  mkMultiTransport (base mt) (_queue mt) (_stream mt) p.

(** [this._uploadedSize += partSize]; an undefined field adds up to [NaN]. *)
Definition add_uploadedSize (partSize : num) (b : Transport.Transport)
    : Transport.Transport :=
  Transport.mkTransport (Transport._uuid b) (Transport._objectKey b)
    (Transport._localPath b) (Transport._bucketName b) (Transport._state b)
    (Transport._outputStream b) (Transport._checkAlive b) (Transport._uploadId b)
    (Some (match Transport._uploadedSize b with
           | Some u => add u partSize
           | None => NaN
           end)).

(** The PUT issued by [_invoke] for a part. *)
Definition put_request (b : Transport.Transport) (p : Part) : Action :=
  SendPut (Transport._bucketName b) (Transport._objectKey b) (partNumber p)
    (Transport._uploadId b) (partSize p).

(** [_invoke({partNumber, partSize, start}, done)] up to the request. *)
Definition _invoke (p : Part) (mt : MultiTransport) : MultiTransport * list Action :=
  let end_ := sub (add (start p) (partSize p)) (Int 1) in
  (set_stream (Some (mkReadStream (start p) end_)) mt,
   [CreateReadStream (Transport._localPath (base mt)) (start p) end_;
    put_request (base mt) p]).

Fixpoint invoke_all (started : list (nat * Part)) (mt : MultiTransport)
    : MultiTransport * list Action :=
  match started with
  | [] => (mt, [])
  | (_, p) :: rest =>
      let '(mt1, a1) := _invoke p mt in
      let '(mt2, a2) := invoke_all rest mt1 in
      (mt2, a1 ++ a2)
  end.

(** [this._queue.process()]: the queue starts what it may and the worker
    [_invoke] runs for each started part. *)
Definition process (mt : MultiTransport) : MultiTransport * list Action :=
  match _queue mt with
  | Some q =>
      let '(started, q') := AsyncQueue.process q in
      invoke_all started (set_queue (Some q') mt)
  | None => (mt, [])
  end.

(** [resume(remainParts)]: a new queue of concurrency 1 receives the parts;
    the queue schedules its [process] for later. *)
Definition resume (remainParts : list Part) (mt : MultiTransport) : MultiTransport :=
  set_resumed Pending
    (set_queue (Some (AsyncQueue.push remainParts (AsyncQueue.create 1))) mt).

(** What the runtime delivers to the upload after [resume]. *)
Inductive Signal : Type :=
  | Process
  | PutResolved (cb : nat)
  | PutRejected (cb : nat) (err : Transport.Err)
  | Progress (now rate bytesWritten : Z)
  | Timer (now : Z).

Definition worker_part (cb : nat) (q : AsyncQueue.queue Part) : option Part :=
  snd <$> find (fun w => (w.1 =? cb)%nat) (AsyncQueue.workersList q).

(** The request of worker [cb] succeeded:
    [this._uploadedSize += partSize; done();] and the queue goes on
    ([drain] resolves the promise when nothing is left). *)
Definition onPutResolved (cb : nat) (mt : MultiTransport) : MultiTransport * list Action :=
  match _queue mt with
  | Some q =>
      match worker_part cb q, AsyncQueue.callback cb q with
      | Some p, Some q' =>
          let mt1 := set_queue (Some q') (set_base (add_uploadedSize (partSize p) (base mt)) mt) in
          let mt2 :=
            if AsyncQueue.idle q' then
              match resumed mt1 with
              | Pending => set_resumed Resolved mt1
              | _ => mt1
              end
            else mt1 in
          process mt2
      | _, _ => (mt, [])
      end
  | None => (mt, [])
  end.

(** The request of worker [cb] failed: [done(err)], and the queue's
    [error] handler kills the queue and rejects the promise. *)
Definition onPutRejected (cb : nat) (err : Transport.Err) (mt : MultiTransport)
    : MultiTransport * list Action :=
  match _queue mt with
  | Some q =>
      match worker_part cb q, AsyncQueue.callback cb q with
      | Some _, Some q' =>
          let mt1 := set_queue (Some (AsyncQueue.kill q')) mt in
          let mt2 :=
            match resumed mt1 with
            | Pending => set_resumed (Rejected err) mt1
            | _ => mt1
            end in
          process mt2
      | _, _ => (mt, [])
      end
  | None => (mt, [])
  end.

(** ['progress'] on the read stream at time [now]. *)
Definition onProgress (now rate bytesWritten : Z) (mt : MultiTransport)
    : MultiTransport * list Action :=
  match _stream mt with
  | Some _ =>
      let b := base mt in
      (set_base (Transport.set_checkAlive (Debounce.call now (Transport._checkAlive b)) b) mt,
       [EmitProgress rate
          (match Transport._uploadedSize b with
           | Some u => add u (Int bytesWritten)
           | None => NaN
           end)
          (Transport._uuid b)])
  | None => (mt, [])
  end.

(** The timers run at time [now]: the debounced [_checkAlive] emits
    ['abort'] on the read stream (with no stream the call throws and
    nothing is emitted). *)
Definition onTimer (now : Z) (mt : MultiTransport) : MultiTransport * list Action :=
  let b := base mt in
  let '(fired, d) := Debounce.expire now (Transport._checkAlive b) in
  let mt' := set_base (Transport.set_checkAlive d b) mt in
  if fired then
    match _stream mt with
    | Some _ => (mt', [StreamEmitAbort])
    | None => (mt', [])
    end
  else (mt', []).

Definition step (s : Signal) (mt : MultiTransport) : MultiTransport * list Action :=
  match s with
  | Process => process mt
  | PutResolved cb => onPutResolved cb mt
  | PutRejected cb err => onPutRejected cb err mt
  | Progress now rate bytesWritten => onProgress now rate bytesWritten mt
  | Timer now => onTimer now mt
  end.

Fixpoint run (ss : list Signal) (mt : MultiTransport) : MultiTransport * list Action :=
  match ss with
  | [] => (mt, [])
  | s :: rest =>
      let '(mt1, a1) := step s mt in
      let '(mt2, a2) := run rest mt1 in
      (mt2, a1 ++ a2)
  end.

Definition is_put (a : Action) : bool :=
  match a with SendPut _ _ _ _ _ => true | _ => false end.

(** The PUT requests among the actions, in order. *)
Definition puts (acts : list Action) : list Action :=
  filter (fun a => is_put a = true) acts.

(** Parts whose PUT was issued and has not settled. *)
Definition in_flight (mt : MultiTransport) : nat :=
  match _queue mt with
  | Some q => AsyncQueue.numRunning q
  | None => 0
  end.

(** *** The loop with a finite part size *)

Lemma kPartSize_pos : 0 < kPartSize.
Proof. reflexivity. Qed.

Lemma decompose_loop_done fuel avg left off pn :
  gt0 left = false -> decompose_loop fuel avg left off pn = Some [].
Proof. intros H. destruct fuel; simpl; rewrite H; reflexivity. Qed.

(** With a finite part size [a >= kPartSize] the loop ends within the fuel,
    its parts add up to what was left, are contiguous and numbered, and
    there are at most [m] of them whenever [m] parts of size [a] cover
    what was left. *)
Lemma decompose_loop_int fuel : forall a left off pn,
  kPartSize <= a ->
  left <= Z.of_nat fuel * kPartSize ->
  exists ps,
    decompose_loop fuel (Int a) (Int left) (Int off) pn = Some ps /\
    sum_sizes ps = Int (Z.max 0 left) /\
    contiguous_from (Int off) ps /\
    numbered_from pn ps /\
    (forall m : nat, left <= Z.of_nat m * a -> (length ps <= m)%nat).
Proof.
  pose proof kPartSize_pos as Hk.
  induction fuel as [|fuel IH]; intros a left off pn Ha Hfuel.
  - exists []. simpl. destruct (0 <? left) eqn:E; [apply Z.ltb_lt in E; lia|].
    apply Z.ltb_ge in E. repeat split; simpl; try (f_equal; lia); auto with lia.
  - simpl. destruct (0 <? left) eqn:E.
    + apply Z.ltb_lt in E.
      destruct (IH a (left - Z.min left a) (off + Z.min left a) (pn + 1) Ha)
        as (ps & Hps & Hsum & Hc & Hn & Hlen); [lia|].
      rewrite Hps. eexists; split; [reflexivity|].
      repeat split; simpl; auto.
      * rewrite Hsum. simpl. f_equal. lia.
      * intros [|m] Hm; [lia|]. apply le_n_S, Hlen. nia.
    + apply Z.ltb_ge in E. exists []. repeat split; simpl; try (f_equal; lia); auto with lia.
Qed.

(** A result of the loop does not depend on the iterations granted. *)
Lemma decompose_loop_more_fuel fuel : forall avg left off pn ps k,
  decompose_loop fuel avg left off pn = Some ps ->
  decompose_loop (fuel + k) avg left off pn = Some ps.
Proof.
  induction fuel as [|fuel IH]; intros avg left off pn ps k H.
  - simpl in H. destruct (gt0 left) eqn:E; [discriminate|].
    injection H as <-. apply decompose_loop_done, E.
  - simpl in *. destruct (gt0 left); [|exact H].
    destruct (decompose_loop fuel _ _ _ _) as [rest|] eqn:E; [|discriminate].
    rewrite (IH _ _ _ _ _ k E). exact H.
Qed.

Lemma decompose_fuel_enough uploadSize totalSize :
  totalSize - uploadSize <= Z.of_nat (decompose_fuel uploadSize totalSize) * kPartSize.
Proof.
  pose proof kPartSize_pos as Hk. unfold decompose_fuel.
  set (l := totalSize - uploadSize).
  destruct (Z.le_gt_cases l 0) as [Hl|Hl]; [nia|].
  rewrite Nat2Z.inj_succ, Z2Nat.id by (apply Z.div_pos; lia).
  pose proof (Z.mul_succ_div_gt l kPartSize Hk). lia.
Qed.

(** The part size is never below [kPartSize]: it is finite and at least
    [kPartSize], or infinite, or (only for [0 / 0]) not a number. *)
Lemma averagePartSize_cases totalSize d :
  let avg := max (Int kPartSize) (ceil_div totalSize d) in
  (exists a, avg = Int a /\ kPartSize <= a /\ (0 < d -> totalSize <= a * d)) \/
  (avg = PosInf /\ d = 0 /\ 0 < totalSize) \/
  (avg = NaN /\ d = 0 /\ totalSize = 0).
Proof.
  unfold ceil_div. destruct (d =? 0) eqn:Ed.
  - apply Z.eqb_eq in Ed. destruct (0 <? totalSize) eqn:E1.
    + apply Z.ltb_lt in E1. right; left. auto.
    + apply Z.ltb_ge in E1. destruct (totalSize <? 0) eqn:E2.
      * left. exists kPartSize. simpl. repeat split; lia.
      * apply Z.ltb_ge in E2. right; right. repeat split; auto; lia.
  - apply Z.eqb_neq in Ed. left. simpl. eexists; split; [reflexivity|].
    split; [lia|]. intros Hd.
    pose proof (Z.div_mod (- totalSize) d Ed) as Hdm.
    pose proof (Z.mod_pos_bound (- totalSize) d Hd) as Hb.
    nia.
Qed.

(** [_decompose] returns on every input: the granted iterations are never
    exhausted. *)
Theorem _decompose_total {A : Type} (orderedParts : list A) maxParts uploadSize totalSize :
  exists ps, _decompose orderedParts maxParts uploadSize totalSize = Some ps.
Proof.
  unfold _decompose.
  destruct (averagePartSize_cases totalSize (maxParts - Z.of_nat (length orderedParts)))
    as [(a & -> & Ha & _) | [(-> & _ & _) | (-> & _ & _)]].
  - destruct (decompose_loop_int (decompose_fuel uploadSize totalSize) a
                (totalSize - uploadSize) uploadSize
                (Z.of_nat (length orderedParts) + 1) Ha
                (decompose_fuel_enough _ _)) as (ps & Hps & _).
    eauto.
  - unfold decompose_fuel. simpl.
    destruct (0 <? totalSize - uploadSize) eqn:E; [|eauto].
    rewrite decompose_loop_done; [eauto|]. simpl. rewrite Z.sub_diag. reflexivity.
  - unfold decompose_fuel. simpl.
    destruct (0 <? totalSize - uploadSize) eqn:E; [|eauto].
    rewrite decompose_loop_done; [eauto|]. reflexivity.
Qed.

(** C2. For byte counts [0 <= uploadSize < totalSize], whatever
    [orderedParts] and [maxParts] are, [_decompose] returns a list of parts
    whose [partSize] values add up to exactly [totalSize - uploadSize] and
    whose [start] offsets are contiguous, the first one being [uploadSize]. *)
Theorem _decompose_sum_contiguous {A : Type} (orderedParts : list A)
    (maxParts uploadSize totalSize : Z) :
  0 <= uploadSize ->
  uploadSize < totalSize ->
  exists ps,
    _decompose orderedParts maxParts uploadSize totalSize = Some ps /\
    sum_sizes ps = Int (totalSize - uploadSize) /\
    contiguous_from (Int uploadSize) ps.
Proof.
  intros Hup Hlt. unfold _decompose.
  destruct (averagePartSize_cases totalSize (maxParts - Z.of_nat (length orderedParts)))
    as [(a & -> & Ha & _) | [(-> & _ & _) | (_ & _ & ?)]]; [| |lia].
  - destruct (decompose_loop_int (decompose_fuel uploadSize totalSize) a
                (totalSize - uploadSize) uploadSize
                (Z.of_nat (length orderedParts) + 1) Ha
                (decompose_fuel_enough _ _)) as (ps & Hps & Hsum & Hc & _).
    exists ps. rewrite Hsum. repeat split; auto. f_equal. lia.
  - unfold decompose_fuel. simpl.
    assert (E : (0 <? totalSize - uploadSize) = true) by (apply Z.ltb_lt; lia).
    rewrite E, decompose_loop_done by (simpl; rewrite Z.sub_diag; reflexivity).
    eexists; split; [reflexivity|]. simpl. repeat split. f_equal. lia.
Qed.

Lemma _decompose_sum_contiguous_witness :
  exists ps,
    _decompose [1%nat; 2%nat] 1000 (40 * MiB) (55 * MiB) = Some ps /\
    sum_sizes ps = Int (55 * MiB - 40 * MiB) /\
    contiguous_from (Int (40 * MiB)) ps.
Proof.
  apply (_decompose_sum_contiguous [1%nat; 2%nat] 1000 (40 * MiB) (55 * MiB));
    vm_compute; congruence.
Defined.

(** C3. When fewer than [maxParts] parts exist already (and the uploaded
    byte count is not negative), the existing parts and the parts returned
    by [_decompose] together never exceed [maxParts]. *)
Theorem _decompose_part_count {A : Type} (orderedParts : list A)
    (maxParts uploadSize totalSize : Z) :
  Z.of_nat (length orderedParts) < maxParts ->
  0 <= uploadSize ->
  exists ps,
    _decompose orderedParts maxParts uploadSize totalSize = Some ps /\
    Z.of_nat (length orderedParts) + Z.of_nat (length ps) <= maxParts.
Proof.
  intros Hd Hup. unfold _decompose.
  set (d := maxParts - Z.of_nat (length orderedParts)).
  destruct (averagePartSize_cases totalSize d)
    as [(a & -> & Ha & Hcover) | [(_ & ? & _) | (_ & ? & _)]]; [|lia|lia].
  destruct (decompose_loop_int (decompose_fuel uploadSize totalSize) a
              (totalSize - uploadSize) uploadSize
              (Z.of_nat (length orderedParts) + 1) Ha
              (decompose_fuel_enough _ _)) as (ps & Hps & _ & _ & _ & Hlen).
  exists ps. split; [exact Hps|].
  specialize (Hlen (Z.to_nat d)). rewrite Z2Nat.id in Hlen by lia.
  assert (length ps <= Z.to_nat d)%nat by (apply Hlen; specialize (Hcover ltac:(lia)); lia).
  lia.
Qed.

Lemma _decompose_part_count_witness :
  exists ps,
    _decompose [1%nat; 2%nat] 4 (40 * MiB) (4000 * MiB) = Some ps /\
    Z.of_nat (length [1%nat; 2%nat]) + Z.of_nat (length ps) <= 4.
Proof.
  apply (_decompose_part_count [1%nat; 2%nat] 4 (40 * MiB) (4000 * MiB));
    vm_compute; congruence.
Defined.

(** C8. A 55 MiB file with the 20 MiB floor, no existing part and
    [maxParts = 1000] is planned as part 1 of 20 MiB at offset 0, part 2 of
    20 MiB at offset 20 MiB and part 3 of 15 MiB at offset 40 MiB. *)
Theorem _decompose_55MiB :
  _decompose (@nil Part) 1000 0 (55 * MiB) =
  Some [ mkPart 1 (Int (20 * MiB)) (Int 0);
         mkPart 2 (Int (20 * MiB)) (Int (20 * MiB));
         mkPart 3 (Int (15 * MiB)) (Int (40 * MiB)) ].
Proof. vm_compute. reflexivity. Qed.

(** Without the lower bound on [uploadSize] the part count can exceed the
    ceiling: the part size is computed from [totalSize] alone. *)
Example _decompose_negative_upload :
  exists ps, _decompose (@nil Part) 1 (- (100 * MiB)) 1 = Some ps /\ length ps = 6%nat.
Proof. eexists. split; [vm_compute; reflexivity|reflexivity]. Qed.

(** *** The part queue *)

Lemma puts_app a1 a2 : puts (a1 ++ a2) = puts a1 ++ puts a2.
Proof. unfold puts. apply filter_app. Qed.

Lemma invoke_all_spec started : forall mt,
  _queue (invoke_all started mt).1 = _queue mt /\
  base (invoke_all started mt).1 = base mt /\
  resumed (invoke_all started mt).1 = resumed mt /\
  puts (invoke_all started mt).2 = map (put_request (base mt)) (map snd started).
Proof.
  induction started as [|[cb p] rest IH]; intros mt; simpl; [auto|].
  specialize (IH (set_stream (Some (mkReadStream (start p)
                    (sub (add (start p) (partSize p)) (Int 1)))) mt)).
  destruct (invoke_all rest _) as [mt2 a2]. simpl in *.
  destruct IH as (H1 & H2 & H3 & H4). repeat split; auto.
  unfold puts in *. simpl.
  rewrite filter_cons_False by discriminate.
  rewrite filter_cons_True by reflexivity.
  f_equal. exact H4.
Qed.

Lemma process_spec mt q :
  _queue mt = Some q ->
  (AsyncQueue.numRunning q <= AsyncQueue.concurrency q)%nat ->
  exists (started : list (nat * Part)) q',
    _queue (process mt).1 = Some q' /\
    base (process mt).1 = base mt /\
    resumed (process mt).1 = resumed mt /\
    puts (process mt).2 = map (put_request (base mt)) (map snd started) /\
    (AsyncQueue.numRunning q' <= AsyncQueue.concurrency q')%nat /\
    AsyncQueue.concurrency q' = AsyncQueue.concurrency q /\
    AsyncQueue._tasks q = map snd started ++ AsyncQueue._tasks q'.
Proof.
  intros Hq Hle. unfold process. rewrite Hq.
  destruct (AsyncQueue.process q) as [started q'] eqn:E.
  apply AsyncQueue.process_loop_bound in E as (H1 & H2 & H3); [|exact Hle].
  destruct (invoke_all_spec started (set_queue (Some q') mt)) as (I1 & I2 & I3 & I4).
  exists started, q'. simpl in *. repeat split; auto.
Qed.

(** The state of a run of [resume remainParts]: the queue has concurrency
    1 and at most one worker, the parts issued so far are the first of
    [remainParts], and the pending ones are the rest (or none, once the
    queue was killed). *)
Definition run_inv (remainParts : list Part) (b0 : Transport.Transport)
    (mt : MultiTransport) (issued : list Part) : Prop :=
  exists q rest,
    _queue mt = Some q /\
    AsyncQueue.concurrency q = 1%nat /\
    (AsyncQueue.numRunning q <= 1)%nat /\
    remainParts = issued ++ rest /\
    (AsyncQueue._tasks q = rest \/ AsyncQueue._tasks q = []) /\
    put_request (base mt) = put_request b0.

Lemma run_inv_process remainParts b0 mt issued :
  run_inv remainParts b0 mt issued ->
  exists new,
    puts (process mt).2 = map (put_request b0) new /\
    run_inv remainParts b0 (process mt).1 (issued ++ new).
Proof.
  intros (q & rest & Hq & Hc & Hn & Hparts & Htasks & Hb).
  destruct (process_spec mt q Hq) as (started & q' & P1 & P2 & P3 & P4 & P5 & P6 & P7);
    [lia|].
  exists (map snd started). split; [rewrite P4, Hb; reflexivity|].
  destruct Htasks as [Ht|Ht].
  - exists q', (AsyncQueue._tasks q'). repeat split; auto; try lia; try congruence.
    rewrite <- app_assoc, <- P7, Ht. exact Hparts.
  - rewrite Ht in P7. symmetry in P7. apply app_eq_nil in P7 as [P7 P8].
    rewrite P7, app_nil_r.
    exists q', rest. repeat split; auto; try lia; congruence.
Qed.

Lemma run_inv_step remainParts b0 s mt issued :
  run_inv remainParts b0 mt issued ->
  exists new,
    puts (step s mt).2 = map (put_request b0) new /\
    run_inv remainParts b0 (step s mt).1 (issued ++ new).
Proof.
  intros Hinv.
  assert (Hstay : exists new : list Part,
             puts (mt, @nil Action).2 = map (put_request b0) new /\
             run_inv remainParts b0 (mt, @nil Action).1 (issued ++ new)).
  { exists []. rewrite app_nil_r. split; [reflexivity|exact Hinv]. }
  destruct s as [|cb|cb err|now rate bytes|now]; simpl.
  - apply run_inv_process, Hinv.
  - unfold onPutResolved.
    destruct Hinv as (q & rest & Hq & Hc & Hn & Hparts & Htasks & Hb). rewrite Hq.
    destruct (worker_part cb q) as [p|]; [|exact Hstay].
    destruct (AsyncQueue.callback cb q) as [q'|] eqn:Ecb; [|exact Hstay].
    apply AsyncQueue.callback_bound in Ecb as (C1 & C2 & C3).
    apply run_inv_process.
    exists q', rest. destruct (AsyncQueue.idle q'); [destruct (resumed _)|];
      simpl; repeat split; auto; try lia; congruence.
  - unfold onPutRejected.
    destruct Hinv as (q & rest & Hq & Hc & Hn & Hparts & Htasks & Hb). rewrite Hq.
    destruct (worker_part cb q) as [p|]; [|exact Hstay].
    destruct (AsyncQueue.callback cb q) as [q'|] eqn:Ecb; [|exact Hstay].
    apply AsyncQueue.callback_bound in Ecb as (C1 & C2 & C3).
    apply run_inv_process.
    exists (AsyncQueue.kill q'), rest. destruct (resumed _);
      simpl; repeat split; auto; unfold AsyncQueue.numRunning in *; simpl; lia.
  - unfold onProgress. destruct (_stream mt); [|exact Hstay].
    exists []. rewrite app_nil_r. split; [reflexivity|].
    destruct Hinv as (q & rest & Hq & Hc & Hn & Hparts & Htasks & Hb).
    exists q, rest. simpl. repeat split; auto.
  - unfold onTimer. destruct (Debounce.expire _ _) as [fired d].
    exists []. rewrite app_nil_r.
    split; [destruct fired, (_stream mt); reflexivity|].
    destruct Hinv as (q & rest & Hq & Hc & Hn & Hparts & Htasks & Hb).
    exists q, rest. destruct fired, (_stream mt); simpl; repeat split; auto.
Qed.

Lemma run_inv_run remainParts b0 ss : forall mt issued,
  run_inv remainParts b0 mt issued ->
  exists new,
    puts (run ss mt).2 = map (put_request b0) new /\
    run_inv remainParts b0 (run ss mt).1 (issued ++ new).
Proof.
  induction ss as [|s ss IH]; intros mt issued Hinv; simpl.
  - exists []. rewrite app_nil_r. auto.
  - destruct (run_inv_step remainParts b0 s mt issued Hinv) as (n1 & Hp1 & Hinv1).
    destruct (step s mt) as [mt1 a1]. simpl in *.
    destruct (IH mt1 _ Hinv1) as (n2 & Hp2 & Hinv2).
    destruct (run ss mt1) as [mt2 a2]. simpl in *.
    exists (n1 ++ n2). rewrite puts_app, Hp1, Hp2, map_app, app_assoc. auto.
Qed.

(** C7. After [resume remainParts], whatever the runtime delivers (queue
    turns, settled requests, progress events, timers), at most one part PUT
    is in flight, and the PUTs issued so far are those of the first parts
    of [remainParts], in list order. *)
Theorem resume_one_put_in_order (remainParts : list Part) (ss : list Signal)
    (mt : MultiTransport) :
  (in_flight (run ss (resume remainParts mt)).1 <= 1)%nat /\
  exists issued rest,
    remainParts = issued ++ rest /\
    puts (run ss (resume remainParts mt)).2 = map (put_request (base mt)) issued.
Proof.
  destruct (run_inv_run remainParts (base mt) ss (resume remainParts mt) [])
    as (new & Hp & (q & rest & Hq & Hc & Hn & Hparts & _ & _)).
  { exists (AsyncQueue.push remainParts (AsyncQueue.create 1)), remainParts.
    simpl. repeat split; auto. }
  split.
  - unfold in_flight. rewrite Hq. exact Hn.
  - exists new, rest. auto.
Qed.

(** Three parts, each request succeeding: the PUTs go out one after the
    other and the promise resolves. *)
Example resume_three_parts :
  let parts := [ mkPart 1 (Int 20) (Int 0); mkPart 2 (Int 20) (Int 20);
                 mkPart 3 (Int 15) (Int 40) ] in
  let mt := mkMultiTransport Transport.sample None None Pending in
  let r := run [Process; Process; PutResolved 0; PutResolved 1; PutResolved 2]
             (resume parts mt) in
  puts r.2 = map (put_request Transport.sample) parts /\
  resumed r.1 = Resolved /\
  Transport._uploadedSize (base r.1) = Some NaN /\
  puts (run [Process; Process] (resume parts mt)).2 =
    [put_request Transport.sample (mkPart 1 (Int 20) (Int 0))].
Proof. repeat split. Qed.

(** A failing request kills the queue: no further PUT is issued. *)
Example resume_failure_stops :
  let parts := [ mkPart 1 (Int 20) (Int 0); mkPart 2 (Int 20) (Int 20) ] in
  let mt := mkMultiTransport Transport.sample None None Pending in
  let r := run [Process; PutRejected 0 (Transport.ErrStr "reset"); Process]
             (resume parts mt) in
  puts r.2 = [put_request Transport.sample (mkPart 1 (Int 20) (Int 0))] /\
  resumed r.1 = Rejected (Transport.ErrStr "reset").
Proof. repeat split. Qed.

End MultiTransport.

(** ** Stall detection *)
Module Liveness.

Import Headers JsNum.

(** A download whose stream is open and an upload with a part in flight;
    neither has seen a progress event yet. *)
Definition fresh_download : Transport.Transport :=
  (Transport.start 0 (Transport.Absent None) Transport.sample).1.

Definition fresh_upload : MultiTransport.MultiTransport :=
  (MultiTransport.run [MultiTransport.Process]
     (MultiTransport.resume [MultiTransport.mkPart 1 (Int 20) (Int 0)]
        (MultiTransport.mkMultiTransport Transport.sample None None
           MultiTransport.Pending))).1.

Lemma expire_before now now' d :
  now' < now + Debounce.wait d ->
  Debounce.expire now' (Debounce.call now d) = (false, Debounce.call now d).
Proof.
  intros H. unfold Debounce.expire, Debounce.call. simpl.
  destruct (_ <=? _) eqn:E; [apply Z.leb_le in E; lia|reflexivity].
Qed.

Lemma expire_after now now' d :
  now + Debounce.wait d <= now' ->
  Debounce.expire now' (Debounce.call now d) =
  (true, Debounce.mkDebounced (Debounce.wait d) None).
Proof.
  intros H. unfold Debounce.expire, Debounce.call. simpl.
  destruct (_ <=? _) eqn:E; [reflexivity|apply Z.leb_gt in E; lia].
Qed.

(** C9 (as amended). Once a progress event has been handled at time [now]
    on an active stream, the watchdog is due 10 s later: timers running
    before that do nothing; timers running at or after it, with no
    progress in between, make a running download emit a timeout error,
    move to Error and end its write stream, and make an upload emit
    ['abort'] on its read stream; and a further progress event at [now2]
    moves the due time to 10 s after [now2]. *)
Theorem watchdog_after_progress (t : Transport.Transport)
    (mt : MultiTransport.MultiTransport) (now now' now2 bytes rate : Z) (stack : string) :
  Transport.isRunning t = true ->
  is_Some (Transport._outputStream t) ->
  Debounce.wait (Transport._checkAlive t) = 10000 ->
  is_Some (MultiTransport._stream mt) ->
  Debounce.wait (Transport._checkAlive (MultiTransport.base mt)) = 10000 ->
  let t1 := (Transport.onDrain now bytes t).1 in
  let mt1 := (MultiTransport.onProgress now rate bytes mt).1 in
  (now' < now + 10000 ->
     Transport.onTimer now' stack t1 = (t1, []) /\
     MultiTransport.onTimer now' mt1 = (mt1, [])) /\
  (now + 10000 <= now' ->
     (exists t2,
        Transport.onTimer now' stack t1 =
          (t2, [Transport.Emit
                  (Transport.EvError (Transport._uuid t) ("网络连接超时" +:+ stack));
                Transport.StreamEnd]) /\
        Transport._state t2 = Error /\
        Transport.ended <$> Transport._outputStream t2 = Some true) /\
     (exists mt2,
        MultiTransport.onTimer now' mt1 = (mt2, [MultiTransport.StreamEmitAbort]))) /\
  Debounce.due (Transport._checkAlive (Transport.onDrain now2 bytes t1).1) =
    Some (now2 + 10000) /\
  Debounce.due (Transport._checkAlive
                  (MultiTransport.base (MultiTransport.onProgress now2 rate bytes mt1).1)) =
    Some (now2 + 10000).
Proof.
  intros Hrun [s Hs] Hw [rs Hrs] Hw'. cbv zeta.
  unfold Transport.onDrain, MultiTransport.onProgress. rewrite Hs, Hrs. simpl.
  rewrite Hs, Hrs. simpl. repeat split.
  - unfold Transport.onTimer. simpl. rewrite expire_before by lia. reflexivity.
  - unfold MultiTransport.onTimer. simpl. rewrite expire_before by lia. reflexivity.
  - unfold Transport.onTimer. simpl. rewrite expire_after by lia.
    unfold Transport._onTimeout. simpl. rewrite Hs.
    unfold Transport.isRunning in *. simpl. rewrite Hrun.
    unfold Transport._checkError, Transport.isRunning. simpl. rewrite Hrun. simpl.
    eexists. split; [reflexivity|]. simpl. rewrite Hs. split; reflexivity.
  - unfold MultiTransport.onTimer. simpl. rewrite expire_after by lia.
    rewrite Hrs. eexists. reflexivity.
  - rewrite Hw. reflexivity.
  - rewrite Hw'. reflexivity.
Qed.

Lemma watchdog_after_progress_witness :
  (exists t2,
     Transport.onTimer 12000 "at Timeout"
       (Transport.onDrain 2000 512 fresh_download).1 =
       (t2, [Transport.Emit (Transport.EvError "task-1" "网络连接超时at Timeout");
             Transport.StreamEnd]) /\
     Transport._state t2 = Error /\
     Transport.ended <$> Transport._outputStream t2 = Some true) /\
  (exists mt2,
     MultiTransport.onTimer 12000 (MultiTransport.onProgress 2000 7 512 fresh_upload).1 =
     (mt2, [MultiTransport.StreamEmitAbort])).
Proof.
  destruct (watchdog_after_progress fresh_download fresh_upload 2000 12000 3000 512 7
              "at Timeout" eq_refl (mk_is_Some _ _ eq_refl) eq_refl
              (mk_is_Some _ _ eq_refl) eq_refl) as (_ & H & _).
  apply H. lia.
Defined.

(** C9 fails as stated: a transport whose stream is active but has not
    produced any progress event has no watchdog pending; however late the
    timers run, a running download stays Running with its stream open and
    an upload keeps its read stream. *)
Lemma watchdog_unarmed_without_progress :
  Transport.isRunning fresh_download = true /\
  Transport.ended <$> Transport._outputStream fresh_download = Some false /\
  is_Some (MultiTransport._stream fresh_upload) /\
  (forall now stack, Transport.onTimer now stack fresh_download = (fresh_download, [])) /\
  (forall now, MultiTransport.onTimer now fresh_upload = (fresh_upload, [])).
Proof. repeat split. eexists. reflexivity. Qed.

End Liveness.

(** ** The task dispatcher *)
Module Dispatcher.

Import Headers.

(** Modelled from the spec: the command names are imported from
    [./command], which is not among the sources; they are the spec's
    outbound notifications Start, Paused, Finished, Error and Rate, and the
    dispatcher only passes them on. *)
Inductive Command : Type :=
  | NotifyStart
  | NotifyPaused
  | NotifyFinished
  | NotifyError
  | NotifyRate.

(** The [config] of an [addItem] message.  An absent [uuid] is the empty
    string (both are falsy). *)
Record Config : Type := mkConfig {
  uuid : string;
  bucketName : string;
  objectKey : string;
  localPath : string;
}.

(** The messages of the controlling process that name a command of the
    protocol: [{category, config}]. *)
Inductive Message : Type :=
  | addItem_msg (config : Config)
  | addPatch_msg (uuid bucketName prefix : string) (objectKeys : list string)
      (localPath : string)
  | pauseItem_msg (uuid : string)
  | pauseAll_msg
  | resumeItem_msg (uuid : string).

(** What [_send] passes to [process.send]: the command and the event
    payload, or [{uuid}] for [NotifyStart]. *)
Inductive Sent : Type :=
  | SendEvent (command : Command) (message : Transport.Event)
  | SendUuid (command : Command) (uuid : string).

(** What [start()] and [resume()] find outside the process at the moment
    they are called: the clock, and the file at a local path. *)
Record World : Type := mkWorld {
  clock : Z;
  files : string -> Transport.LocalFile;
}.

(** What a method does to the object it is called on: the object as it
    is when the method emits its events, the events in order, and what the
    method still does to the object after the last emission, if anything.
    That last part is not reached when a listener throws. *)
Definition Method (T : Type) : Type :=
  T -> T * list Transport.Event * option (T -> T).

(** The members of the [Transport] class that the dispatcher uses: the
    constructor as [addItem] calls it, [_uuid], [isPaused()], [start()],
    [resume()], [pause()], and the callbacks that the runtime delivers to
    the object later.  A constructor call or an [isPaused()] call that
    throws is [None]. *)
Class TransportClass (T : Type) : Type := {
  Callback : Type;
  construct : Config -> option T;
  _uuid : T -> string;
  isPaused : T -> option bool;
  start : World -> Method T;
  resume : World -> Method T;
  pause : Method T;
  settle : Callback -> Method T;
}.

Section Dispatcher.

Context {T : Type} {transport : TransportClass T}.

(** [path.posix.join] and [path.join]. *)
Variable posix_join : string -> string -> string.
Variable join : string -> string -> string.

(** A [Transport] object on the heap, with the [done] callbacks of the
    listeners that [_invoke] registered on it, in registration order (one
    [_invoke] registers its four listeners with the same [done]). *)
Record Object : Type := mkObject {
  this : T;
  listeners : list nat;
}.

(** The dispatcher.  [_queue] is the [async.queue]: its pending tasks are
    the nodes reachable from the head of the queue's linked list,
    [tasksLength] is the [length] property of that list (the two differ
    only after [remove] was disturbed, see [remove_loop]) and
    [isProcessing] is the flag of [q.process].  [world] is what the methods
    called in the current turn find outside the process. *)
Record Dispatcher : Type := mkDispatcher {
  _transportCache : gmap string nat;
  heap : gmap nat Object;
  _queue : AsyncQueue.queue nat;
  tasksLength : Z;
  isProcessing : bool;
  world : World;
  sent : list Sent;
  nextRef : nat;
}.

(** Reference 0 stands for the values that are not [Transport] objects:
    what the cache object [{}] inherits from [Object.prototype], and
    [undefined].  Objects are allocated from reference 1. *)
Definition not_a_transport : nat := 0.

(** [constructor(credentials)] *)
Definition new : Dispatcher :=
  mkDispatcher ∅ ∅ (AsyncQueue.create 5) 0 false
    (mkWorld 0 (fun _ => Transport.Absent None)) [] 1.

Definition set_cache (c : gmap string nat) (d : Dispatcher) : Dispatcher :=
  mkDispatcher c (heap d) (_queue d) (tasksLength d) (isProcessing d) (world d)
    (sent d) (nextRef d).

Definition set_heap (h : gmap nat Object) (d : Dispatcher) : Dispatcher :=
  mkDispatcher (_transportCache d) h (_queue d) (tasksLength d) (isProcessing d)
    (world d) (sent d) (nextRef d).

Definition set_queue (q : AsyncQueue.queue nat) (d : Dispatcher) : Dispatcher :=
  mkDispatcher (_transportCache d) (heap d) q (tasksLength d) (isProcessing d)
    (world d) (sent d) (nextRef d).

Definition set_isProcessing (b : bool) (d : Dispatcher) : Dispatcher :=
  mkDispatcher (_transportCache d) (heap d) (_queue d) (tasksLength d) b (world d)
    (sent d) (nextRef d).

Definition set_world (w : World) (d : Dispatcher) : Dispatcher :=
  mkDispatcher (_transportCache d) (heap d) (_queue d) (tasksLength d)
    (isProcessing d) w (sent d) (nextRef d).

(** The pending tasks become [l] and the list's [length] becomes [n]. *)
Definition set_tasks (l : list nat) (n : Z) (d : Dispatcher) : Dispatcher :=
  mkDispatcher (_transportCache d) (heap d) (AsyncQueue.set_tasks l (_queue d)) n
    (isProcessing d) (world d) (sent d) (nextRef d).

(** [_send(command, message)] *)
Definition _send (s : Sent) (d : Dispatcher) : Dispatcher :=
  mkDispatcher (_transportCache d) (heap d) (_queue d) (tasksLength d)
    (isProcessing d) (world d) (sent d ++ [s]) (nextRef d).

(** The names that [{}] inherits from [Object.prototype]: for them
    [this._transportCache[uuid]] is truthy and [uuid in
    this._transportCache] holds although nothing was stored. *)
Definition inherited (key : string) : bool :=
  bool_decide (key ∈ ["constructor"; "__defineGetter__"; "__defineSetter__";
                      "hasOwnProperty"; "__lookupGetter__"; "__lookupSetter__";
                      "isPrototypeOf"; "propertyIsEnumerable"; "toString";
                      "valueOf"; "__proto__"; "toLocaleString"]).

(** [this._transportCache[key]], [None] when [key] is not in the object. *)
Definition cache_get (key : string) (d : Dispatcher) : option nat :=
  match _transportCache d !! key with
  | Some r => Some r
  | None => if inherited key then Some not_a_transport else None
  end.

(** What [done] does: [Done] is the type of its implementations, [true]
    in the result meaning that the call throws. *)
Definition Done : Type := nat -> Dispatcher -> Dispatcher * bool.

(** The listeners that [_invoke] registers with callback [done], applied
    to an emitted event. *)
Definition listener (k : Done) (done : nat) (e : Transport.Event) (d : Dispatcher)
    : Dispatcher * bool :=
  match e with
  | Transport.EvRate _ _ _ _ _ => (_send (SendEvent NotifyRate e) d, false)
  | Transport.EvPause _ => k done (_send (SendEvent NotifyPaused e) d)
  | Transport.EvFinish uuid _ =>
      let d1 := _send (SendEvent NotifyFinished e) d in
      k done (set_cache (delete uuid (_transportCache d1)) d1)
  | Transport.EvError _ _ => k done (_send (SendEvent NotifyError e) d)
  end.

(** [emit]: the listeners run in registration order; an exception stops
    the round. *)
Fixpoint emit_to (k : Done) (ls : list nat) (e : Transport.Event) (d : Dispatcher)
    : Dispatcher * bool :=
  match ls with
  | [] => (d, false)
  | done :: rest =>
      let '(d1, threw) := listener k done e d in
      if threw then (d1, true) else emit_to k rest e d1
  end.

(** [transport.emit(...)] for the object at [r]; an ['error'] event
    without a listener throws. *)
Definition emit (k : Done) (r : nat) (e : Transport.Event) (d : Dispatcher)
    : Dispatcher * bool :=
  match heap d !! r with
  | Some o =>
      match listeners o, e with
      | [], Transport.EvError _ _ => (d, true)
      | ls, _ => emit_to k ls e d
      end
  | None => (d, false)
  end.

Fixpoint emit_all (k : Done) (r : nat) (es : list Transport.Event) (d : Dispatcher)
    : Dispatcher * bool :=
  match es with
  | [] => (d, false)
  | e :: rest =>
      let '(d1, threw) := emit k r e d in
      if threw then (d1, true) else emit_all k r rest d1
  end.

(** A method or callback [m] of the value at [r] runs: its events are
    delivered and, unless a listener throws, the method goes on to its
    end.  Calling it on a value that is not a [Transport] throws. *)
Definition call_method (k : Done) (m : Method T) (r : nat) (d : Dispatcher)
    : Dispatcher * bool :=
  match heap d !! r with
  | Some o =>
      let '(t', es, rest) := m (this o) in
      let '(d1, threw) :=
        emit_all k r es (set_heap (<[r := mkObject t' (listeners o)]> (heap d)) d) in
      if threw then (d1, true)
      else
        match rest, heap d1 !! r with
        | Some f, Some o1 =>
            (set_heap (<[r := mkObject (f (this o1)) (listeners o1)]> (heap d1)) d1, false)
        | _, _ => (d1, false)
        end
  | None => (d, true)
  end.

(** [_invoke(transport, done)]: on a value that is not a [Transport] the
    first [transport.on] throws; on a [Transport] the four listeners are
    registered before [isPaused()] is called. *)
Definition _invoke (k : Done) (r done : nat) (d : Dispatcher) : Dispatcher * bool :=
  match heap d !! r with
  | Some o =>
      let d1 := set_heap (<[r := mkObject (this o) (listeners o ++ [done])]> (heap d)) d in
      match isPaused (this o) with
      | Some paused =>
          let '(d2, threw) :=
            call_method k (if paused then resume (world d) else start (world d)) r d1 in
          if threw then (d2, true)
          else
            match heap d2 !! r with
            | Some o2 => (_send (SendUuid NotifyStart (_uuid (this o2))) d2, false)
            | None => (d2, false)
            end
      | None => (d1, true)
      end
  | None => (d, true)
  end.

(** [done()] called while the loop of [q.process] runs: the worker leaves
    the queue, and the [q.process()] that ends async's callback returns at
    once because [isProcessing] is set.  [true] is the exception [Callback
    was already called]. *)
Definition done_processing (done : nat) (d : Dispatcher) : Dispatcher * bool :=
  match AsyncQueue.callback done (_queue d) with
  | Some q => (set_queue q d, false)
  | None => (d, true)
  end.

(** The loop of [q.process]:

    [while (numRunning < q.concurrency && q._tasks.length) {
       var l = Math.min(q._tasks.length, q.payload);
       for (i < l) { var node = q._tasks.shift(); ...; data.push(node.data); }
       numRunning += 1; ...; _worker(data[0], onlyOnce(_next(tasks))); }]

    with [payload] 1 and [_worker] the dispatcher's [_invoke].  While the
    list and its [length] agree, the head of the pending tasks becomes a
    worker.  A positive [length] over an empty list makes [shift()] return
    [null], whose [data] cannot be read; a negative [length] takes no node
    and calls the worker without a task.  An exception leaves the loop. *)
Fixpoint process_loop (fuel : nat) (d : Dispatcher) : Dispatcher * bool :=
  match fuel with
  | O => (d, false)
  | S fuel' =>
      let q := _queue d in
      let done := AsyncQueue.nextCallback q in
      if (AsyncQueue.numRunning q <? AsyncQueue.concurrency q)%nat
         && negb (tasksLength d =? 0)
      then
        if 0 <? tasksLength d then
          match AsyncQueue._tasks q with
          | r :: rest =>
              let d1 :=
                set_tasks rest (tasksLength d - 1)
                  (set_queue
                     (AsyncQueue.mkQueue (AsyncQueue.concurrency q) (AsyncQueue._tasks q)
                        (AsyncQueue.workersList q ++ [(done, r)]) (S done)) d) in
              let '(d2, threw) := _invoke done_processing r done d1 in
              if threw then (d2, true) else process_loop fuel' d2
          | [] => (d, true)
          end
        else
          (set_queue
             (AsyncQueue.mkQueue (AsyncQueue.concurrency q) (AsyncQueue._tasks q)
                (AsyncQueue.workersList q ++ [(done, not_a_transport)]) (S done)) d,
           true)
      else (d, false)
  end.

(** [q.process()]: it returns at once while another call is under way
    ([isProcessing]); an exception inside the loop leaves the flag set.
    Every turn of the loop that goes on takes a pending task, so one turn
    more than there are pending tasks is enough ([process_loop_enough]). *)
Definition process (d : Dispatcher) : Dispatcher * bool :=
  if isProcessing d then (d, false)
  else
    let '(d1, threw) :=
      process_loop (S (length (AsyncQueue._tasks (_queue d)))) (set_isProcessing true d) in
    if threw then (d1, true) else (set_isProcessing false d1, false).

(** [done()], the callback that async hands to the worker: the worker
    leaves the queue and [q.process()] runs in the same call.  [true] is
    the exception [Callback was already called], or one thrown while the
    next tasks were started. *)
Definition call_done (done : nat) (d : Dispatcher) : Dispatcher * bool :=
  match AsyncQueue.callback done (_queue d) with
  | Some q => process (set_queue q d)
  | None => (d, true)
  end.

(** [this._queue.unshift(task)]: the task enters the list at the front
    ([length] is set to 1 when the list has no head) and a later turn of
    the event loop runs [q.process()]. *)
Definition unshift (r : nat) (d : Dispatcher) : Dispatcher :=
  match AsyncQueue._tasks (_queue d) with
  | [] => set_tasks [r] 1 d
  | l => set_tasks (r :: l) (tasksLength d + 1) d
  end.

(** [resumeItem({uuid})] *)
Definition resumeItem (uuid : string) (d : Dispatcher) : Dispatcher :=
  match cache_get uuid d with
  | Some r => unshift r d
  | None => d
  end.

(** [addItem(config)]: when the constructor throws, nothing is stored and
    nothing is queued. *)
Definition addItem (config : Config) (d : Dispatcher) : Dispatcher * bool :=
  if bool_decide (uuid config = "") then (d, false)
  else
    match cache_get (uuid config) d with
    | Some _ => (resumeItem (uuid config) d, false)
    | None =>
        match construct config with
        | Some t =>
            (resumeItem (uuid config)
               (mkDispatcher (<[uuid config := nextRef d]> (_transportCache d))
                  (<[nextRef d := mkObject t []]> (heap d))
                  (_queue d) (tasksLength d) (isProcessing d) (world d) (sent d)
                  (S (nextRef d))),
             false)
        | None => (d, true)
        end
    end.

(** [addPatch({uuid, bucketName, prefix, objectKeys, localPath, totalSize})]:
    an exception ends the [forEach]. *)
Fixpoint addPatch (uuid bucketName prefix : string) (objectKeys : list string)
    (localPath : string) (d : Dispatcher) : Dispatcher * bool :=
  match objectKeys with
  | [] => (d, false)
  | item :: rest =>
      let '(d1, threw) :=
        addItem (mkConfig uuid bucketName (posix_join prefix item) (join localPath item)) d in
      if threw then (d1, true) else addPatch uuid bucketName prefix rest localPath d1
  end.

(** [pauseItem({uuid})] *)
Definition pauseItem (uuid : string) (d : Dispatcher) : Dispatcher * bool :=
  match cache_get uuid d with
  | Some r => call_method call_done pause r d
  | None => (d, false)
  end.

(** Where the node that [remove] visits stands in the list: it is the
    head; or the list has lost its head and the node still leads to the
    nodes after it; or the node was taken out and leads nowhere. *)
Inductive Visit : Type :=
  | AtHead
  | Orphan
  | Detached.

(** [this._queue.remove(item => { item.data.pause(); return true; })], the
    list's

    [var curr = this.head;
     while (curr) { var next = curr.next;
                    if (testFn(curr)) this.removeLink(curr);
                    curr = next; }]

    Every pending task is paused and unlinked, in order, and an exception
    ends the loop.  When [pause()] makes a listener call [done()], the
    queue starts pending tasks in the same call, beginning with the node
    being visited; [removeLink] on a node that was taken out already sets
    the head of the list to [null] and counts [length] down once more.
    [chain] is the node visited and the nodes after it. *)
Fixpoint remove_loop (v : Visit) (chain : list nat) (d : Dispatcher)
    : Dispatcher * bool :=
  match chain with
  | [] => (d, false)
  | r :: rest =>
      let before := length (AsyncQueue._tasks (_queue d)) in
      let '(d1, threw) := call_method call_done pause r d in
      if threw then (d1, true)
      else
        let taken := (before - length (AsyncQueue._tasks (_queue d1)))%nat in
        match v with
        | AtHead =>
            match taken with
            | O => remove_loop AtHead rest (set_tasks rest (tasksLength d1 - 1) d1)
            | S O => remove_loop Orphan rest (set_tasks [] (tasksLength d1 - 1) d1)
            | S (S _) => remove_loop Detached rest (set_tasks [] (tasksLength d1 - 1) d1)
            end
        | Orphan => remove_loop AtHead rest (set_tasks rest (tasksLength d1 - 1) d1)
        | Detached => (set_tasks [] (tasksLength d1 - 1) d1, false)
        end
  end.

(** [pauseAll()] *)
Definition pauseAll (d : Dispatcher) : Dispatcher :=
  (remove_loop AtHead (AsyncQueue._tasks (_queue d)) d).1.

(** [dispatch({category, config})] *)
Definition dispatch (m : Message) (d : Dispatcher) : Dispatcher :=
  match m with
  | addItem_msg config => (addItem config d).1
  | addPatch_msg uuid bucketName prefix objectKeys localPath =>
      (addPatch uuid bucketName prefix objectKeys localPath d).1
  | pauseItem_msg uuid => (pauseItem uuid d).1
  | pauseAll_msg => pauseAll d
  | resumeItem_msg uuid => resumeItem uuid d
  end.

(** What the event loop runs: a message from the controlling process, the
    [q.process()] that [unshift] scheduled, or a callback of the transport
    object at [r]; and what happens outside the process between them. *)
Inductive Label : Type :=
  | OnMessage (m : Message)
  | QueueTurn
  | Settle (r : nat) (cb : Callback)
  | Outside (w : World).

Definition step (d : Dispatcher) (l : Label) : Dispatcher :=
  match l with
  | OnMessage m => dispatch m d
  | QueueTurn => (process d).1
  | Settle r cb => (call_method call_done (settle cb) r d).1
  | Outside w => set_world w d
  end.

Definition run (ls : list Label) (d : Dispatcher) : Dispatcher := fold_left step ls d.

(** Tasks that were invoked and whose [done] was not called yet. *)
Definition active (d : Dispatcher) : nat := AsyncQueue.numRunning (_queue d).

End Dispatcher.

(** *** The download [Transport] behind the interface *)

(** The events among the actions of a method, in order. *)
Definition events (acts : list Transport.Action) : list Transport.Event :=
  omap (fun a => match a with Transport.Emit e => Some e | _ => None end) acts.

(** Whether the stream is ended after an event was emitted, as in
    [_onTimeout]: [this._checkError(...); this._outputStream.end()]. *)
Fixpoint ends_after_emit (emitted : bool) (acts : list Transport.Action) : bool :=
  match acts with
  | [] => false
  | Transport.Emit _ :: rest => ends_after_emit true rest
  | Transport.StreamEnd :: rest => emitted || ends_after_emit emitted rest
  | _ :: rest => ends_after_emit emitted rest
  end.

(** A method of the download as the dispatcher sees it.  Where the method
    ends the stream after its emission, the listeners run while the stream
    is still as it was, and the stream is ended afterwards. *)
Definition emitting (f : Transport.Transport -> Transport.Transport * list Transport.Action)
    : Method Transport.Transport :=
  fun t =>
    let '(t', acts) := f t in
    if ends_after_emit false acts then
      (Transport.set_outputStream (Transport._outputStream t) t', events acts,
       Some Transport.end_outputStream)
    else (t', events acts, None).

(** The object that a method leaves when no listener throws. *)
Definition completed {T : Type} (m : Method T) (t : T) : T :=
  let '(t', _, rest) := m t in
  match rest with
  | Some f => f t'
  | None => t'
  end.

(** The callbacks of a download. *)
Inductive DownloadCallback : Type :=
  | Metadata (now size mtime : Z) (res : Transport.Metadata)
  | MetadataError (err : Transport.Err)
  | GetResolved
  | GetRejected (err : Transport.Err)
  | Drain (now bytesWritten : Z)
  | Rate (rateBytes rateTime bytesWritten : Z)
  | StreamError (err : Transport.ErrorObject)
  | Timer (now : Z) (stack : string).

Definition settle_download (cb : DownloadCallback) (t : Transport.Transport)
    : Transport.Transport * list Transport.Action :=
  match cb with
  | Metadata now size mtime res => Transport.start_onMetadata now size mtime res t
  | MetadataError err => Transport.start_onMetadataError err t
  | GetResolved => Transport.onGetResolved t
  | GetRejected err => Transport.onGetRejected err t
  | Drain now bytesWritten => Transport.onDrain now bytesWritten t
  | Rate rateBytes rateTime bytesWritten => Transport.onRate rateBytes rateTime bytesWritten t
  | StreamError err => Transport.onStreamError err t
  | Timer now stack => Transport.onTimer now stack t
  end.

(** The class that the dispatcher imports from [./transport].  [addItem]
    calls [new Transport(Object.assign({credentials}, config))] with one
    argument, and the constructor [constructor(credentials, config)]
    destructures its second one, which is [undefined]: every construction
    throws.  The class defines [isRunning] and [isUnStarted] but no
    [isPaused], so the call in [_invoke] throws as well.  [_invoke] would
    call [resume()] without arguments. *)
#[export] Instance download : TransportClass Transport.Transport := {|
  Callback := DownloadCallback;
  construct _ := None;
  _uuid := Transport._uuid;
  isPaused _ := None;
  start w t := emitting (Transport.start (clock w) (files w (Transport._localPath t))) t;
  resume w := emitting (Transport.resume (clock w) 0 (JsNum.Int 0));
  pause := emitting Transport.pause;
  settle cb := emitting (settle_download cb);
|}.

(** When no listener throws, a callback leaves the download as
    [settle_download] says. *)
Lemma settle_completed cb t : completed (settle cb) t = (settle_download cb t).1.
Proof.
  unfold completed. simpl. unfold emitting.
  destruct (settle_download cb t) as [t' acts] eqn:E.
  destruct (ends_after_emit false acts) eqn:Ee; [|reflexivity]. simpl.
  destruct cb as [now size mtime res|err| |err|now bytesWritten|rateBytes rateTime bytesWritten
                 |err|now stack]; simpl in E.
  8: {
    unfold Transport.onTimer in E.
    destruct (Debounce.expire now (Transport._checkAlive t)) as [fired deb].
    destruct fired; [|injection E as <- <-; discriminate Ee].
    unfold Transport._onTimeout in E. simpl in E.
    destruct (Transport._outputStream t) as [s|] eqn:Es;
      [|injection E as <- <-; discriminate Ee].
    destruct (Transport.isRunning (Transport.set_checkAlive deb t)) eqn:Er;
      [|injection E as <- <-; discriminate Ee].
    destruct (Transport._checkError_running (Transport.timeoutError stack) _ Er)
      as [desc Hd].
    rewrite Hd in E. injection E as <- <-.
    unfold Transport.end_outputStream, Transport.set_outputStream. simpl.
    rewrite Es. reflexivity. }
  all: exfalso; revert E Ee;
    unfold Transport.start_onMetadata, Transport.start_onMetadataError,
      Transport.onGetResolved, Transport.onGetRejected, Transport.onDrain,
      Transport.onRate, Transport.onStreamError, Transport._checkFinish,
      Transport._checkError, Transport.resume;
    repeat match goal with
      | |- context [match ?x with _ => _ end] => destruct x
      end;
    intros [= <- <-]; discriminate.
Qed.

(** *** What every method of the dispatcher respects *)

Section Respected.

Context {T : Type} {transport : TransportClass T}.
Variable posix_join : string -> string -> string.
Variable join : string -> string -> string.

(** [R] relates a state to a later one.  It is reflexive and transitive
    and holds across each update that the methods are made of: deleting a
    cache entry, replacing an object of the heap, storing a constructed
    object, changing the pending tasks, [isProcessing] or [world], sending
    a notification, a [done] that is called for the first time, and
    starting a worker while fewer than [concurrency] run. *)
Variable R : @Dispatcher T -> @Dispatcher T -> Prop.

Hypothesis R_refl : forall d, R d d.
Hypothesis R_trans : forall d1 d2 d3, R d1 d2 -> R d2 d3 -> R d1 d3.
Hypothesis R_cache : forall u d, R d (set_cache (delete u (_transportCache d)) d).
Hypothesis R_heap : forall r o o' d,
  heap d !! r = Some o -> R d (set_heap (<[r := o']> (heap d)) d).
Hypothesis R_alloc : forall c t d,
  construct c = Some t ->
  R d (mkDispatcher (<[uuid c := nextRef d]> (_transportCache d))
         (<[nextRef d := mkObject t []]> (heap d))
         (_queue d) (tasksLength d) (isProcessing d) (world d) (sent d)
         (S (nextRef d))).
Hypothesis R_tasks : forall l n d, R d (set_tasks l n d).
Hypothesis R_isProcessing : forall b d, R d (set_isProcessing b d).
Hypothesis R_world : forall w d, R d (set_world w d).
Hypothesis R_event : forall c e d, R d (_send (SendEvent c e) d).
Hypothesis R_start : forall t paused u d,
  isPaused t = Some paused -> R d (_send (SendUuid NotifyStart u) d).
Hypothesis R_callback : forall done q d,
  AsyncQueue.callback done (_queue d) = Some q -> R d (set_queue q d).
Hypothesis R_worker : forall r d,
  (AsyncQueue.numRunning (_queue d) < AsyncQueue.concurrency (_queue d))%nat ->
  R d (set_queue
         (AsyncQueue.mkQueue (AsyncQueue.concurrency (_queue d))
            (AsyncQueue._tasks (_queue d))
            (AsyncQueue.workersList (_queue d) ++ [(AsyncQueue.nextCallback (_queue d), r)])
            (S (AsyncQueue.nextCallback (_queue d)))) d).

(** [k] is an implementation of [done] that [R] holds across. *)
Definition respects (k : Done) : Prop := forall done d, R d (k done d).1.

Lemma done_processing_respects : respects done_processing.
Proof.
  intros done d. unfold done_processing.
  destruct (AsyncQueue.callback done (_queue d)) as [q|] eqn:E; simpl; eauto.
Qed.

Lemma listener_respects k done e d : respects k -> R d (listener k done e d).1.
Proof.
  intros Hk. destruct e as [? ? ? ? ?|?|u key|? ?]; simpl; [apply R_event|..];
    (eapply R_trans; [|apply Hk]); try apply R_event.
  eapply R_trans; [apply R_event|].
  apply (R_cache u (_send (SendEvent NotifyFinished (Transport.EvFinish u key)) d)).
Qed.

Lemma emit_to_respects k ls e : respects k -> forall d, R d (emit_to k ls e d).1.
Proof.
  intros Hk. induction ls as [|done ls IH]; intros d; simpl; [apply R_refl|].
  pose proof (listener_respects k done e d Hk) as H.
  destruct (listener k done e d) as [d1 [|]]; simpl in *; [exact H|].
  eapply R_trans; [exact H|apply IH].
Qed.

Lemma emit_respects k r e d : respects k -> R d (emit k r e d).1.
Proof.
  intros Hk. unfold emit. destruct (heap d !! r) as [o|]; [|apply R_refl].
  destruct (listeners o) as [|l ls] eqn:El.
  - destruct e; simpl; apply R_refl.
  - apply emit_to_respects, Hk.
Qed.

Lemma emit_all_respects k r es : respects k -> forall d, R d (emit_all k r es d).1.
Proof.
  intros Hk. induction es as [|e es IH]; intros d; simpl; [apply R_refl|].
  pose proof (emit_respects k r e d Hk) as H.
  destruct (emit k r e d) as [d1 [|]]; simpl in *; [exact H|].
  eapply R_trans; [exact H|apply IH].
Qed.

Lemma call_method_respects k m r d : respects k -> R d (call_method k m r d).1.
Proof.
  intros Hk. unfold call_method. destruct (heap d !! r) as [o|] eqn:Eo; [|apply R_refl].
  destruct (m (this o)) as [[t' es] rest].
  match goal with |- context [emit_all k r es ?d1] =>
    pose proof (emit_all_respects k r es Hk d1) as H;
    destruct (emit_all k r es d1) as [d2 threw]
  end.
  simpl in H.
  assert (H' : R d d2) by (eapply R_trans; [|exact H]; eapply R_heap, Eo).
  destruct threw; [exact H'|].
  destruct rest as [f|]; [|exact H'].
  destruct (heap d2 !! r) as [o2|] eqn:Eo2; [|exact H']. simpl.
  eapply R_trans; [exact H'|]. eapply R_heap, Eo2.
Qed.

Lemma _invoke_respects k r done d : respects k -> R d (_invoke k r done d).1.
Proof.
  intros Hk. unfold _invoke. destruct (heap d !! r) as [o|] eqn:Eo; [|apply R_refl].
  destruct (isPaused (this o)) as [paused|] eqn:Ep; [|eapply R_heap, Eo].
  match goal with |- context [call_method k ?m r ?d1] =>
    pose proof (call_method_respects k m r d1 Hk) as H;
    destruct (call_method k m r d1) as [d2 threw]
  end.
  simpl in H.
  assert (H' : R d d2) by (eapply R_trans; [|exact H]; eapply R_heap, Eo).
  destruct threw; [exact H'|]. destruct (heap d2 !! r); [|exact H'].
  simpl. eapply R_trans; [exact H'|]. eapply R_start, Ep.
Qed.

Lemma process_loop_respects fuel : forall d, R d (process_loop fuel d).1.
Proof.
  induction fuel as [|fuel IH]; intros d; simpl; [apply R_refl|].
  destruct (_ && _) eqn:Eguard; [|apply R_refl].
  apply andb_true_iff in Eguard as [Hlt _]. apply Nat.ltb_lt in Hlt.
  pose proof (fun r => R_worker r d Hlt) as Hw.
  destruct (0 <? tasksLength d); [|apply Hw].
  destruct (AsyncQueue._tasks (_queue d)) as [|r rest] eqn:Et; [apply R_refl|].
  match goal with |- context [_invoke done_processing r ?done ?d1] =>
    pose proof (_invoke_respects done_processing r done d1 done_processing_respects) as H;
    assert (H1 : R d d1);
    [|destruct (_invoke done_processing r done d1) as [d2 threw]]
  end.
  { eapply R_trans; [apply (Hw r)|apply R_tasks]. }
  simpl in H. destruct threw; simpl; [eapply R_trans; eassumption|].
  eapply R_trans; [exact H1|]. eapply R_trans; [exact H|apply IH].
Qed.

Lemma process_respects d : R d (process d).1.
Proof.
  unfold process. destruct (isProcessing d); [apply R_refl|].
  match goal with |- context [process_loop ?fuel ?d1] =>
    pose proof (process_loop_respects fuel d1) as H;
    destruct (process_loop fuel d1) as [d2 threw]
  end.
  simpl in H.
  assert (H' : R d d2) by (eapply R_trans; [|exact H]; apply R_isProcessing).
  destruct threw; simpl; [exact H'|].
  eapply R_trans; [exact H'|apply R_isProcessing].
Qed.

Lemma call_done_respects : respects call_done.
Proof.
  intros done d. unfold call_done.
  destruct (AsyncQueue.callback done (_queue d)) as [q|] eqn:E; [|apply R_refl].
  eapply R_trans; [eapply R_callback, E|apply process_respects].
Qed.

Lemma unshift_respects r d : R d (unshift r d).
Proof.
  unfold unshift. destruct (AsyncQueue._tasks (_queue d)); apply R_tasks.
Qed.

Lemma resumeItem_respects u d : R d (resumeItem u d).
Proof.
  unfold resumeItem. destruct (cache_get u d); [apply unshift_respects|apply R_refl].
Qed.

Lemma addItem_respects config d : R d (addItem config d).1.
Proof.
  unfold addItem. destruct (bool_decide _); [apply R_refl|].
  destruct (cache_get (uuid config) d); [apply resumeItem_respects|].
  destruct (construct config) eqn:Ec; [|apply R_refl]. simpl.
  eapply R_trans; [|apply resumeItem_respects]. eapply R_alloc, Ec.
Qed.

Lemma addPatch_respects u b p keys l : forall d,
  R d (addPatch posix_join join u b p keys l d).1.
Proof.
  induction keys as [|key keys IH]; intros d; simpl; [apply R_refl|].
  match goal with |- context [addItem ?c d] =>
    pose proof (addItem_respects c d) as H; destruct (addItem c d) as [d1 [|]]
  end; simpl in *; [exact H|].
  eapply R_trans; [exact H|apply IH].
Qed.

Lemma pauseItem_respects u d : R d (pauseItem u d).1.
Proof.
  unfold pauseItem. destruct (cache_get u d); [|apply R_refl].
  apply call_method_respects, call_done_respects.
Qed.

Lemma remove_loop_respects chain : forall v d, R d (remove_loop v chain d).1.
Proof.
  induction chain as [|r rest IH]; intros v d; simpl; [apply R_refl|].
  pose proof (call_method_respects call_done pause r d call_done_respects) as H.
  destruct (call_method call_done pause r d) as [d1 [|]]; simpl in H; [exact H|].
  assert (Hset : forall l, R d (set_tasks l (tasksLength d1 - 1) d1)).
  { intros l. eapply R_trans; [exact H|apply R_tasks]. }
  destruct v.
  - destruct (_ - _)%nat as [|[|n]]; (eapply R_trans; [apply Hset|apply IH]).
  - eapply R_trans; [apply Hset|apply IH].
  - apply Hset.
Qed.

Lemma dispatch_respects m d : R d (dispatch posix_join join m d).
Proof.
  destruct m; simpl.
  - apply addItem_respects.
  - apply addPatch_respects.
  - apply pauseItem_respects.
  - apply remove_loop_respects.
  - apply resumeItem_respects.
Qed.

Lemma step_respects d l : R d (step posix_join join d l).
Proof.
  destruct l as [m| |r cb|w]; simpl.
  - apply dispatch_respects.
  - apply process_respects.
  - apply call_method_respects, call_done_respects.
  - apply R_world.
Qed.

Lemma run_respects ls : forall d, R d (run posix_join join ls d).
Proof.
  induction ls as [|l ls IH]; intros d; simpl; [apply R_refl|].
  eapply R_trans; [apply step_respects|apply IH].
Qed.

End Respected.

(** *** The loop of [q.process] ends *)

Section Total.

Context {T : Type} {transport : TransportClass T}.

(** [d'] has the pending tasks and the [isProcessing] flag of [d]. *)
Definition same_pending (d d' : @Dispatcher T) : Prop :=
  AsyncQueue._tasks (_queue d') = AsyncQueue._tasks (_queue d) /\
  isProcessing d' = isProcessing d.

Lemma same_pending_refl d : same_pending d d.
Proof. split; reflexivity. Qed.

Lemma same_pending_trans d1 d2 d3 :
  same_pending d1 d2 -> same_pending d2 d3 -> same_pending d1 d3.
Proof. intros [? ?] [? ?]. split; congruence. Qed.

(** While [isProcessing] is set, [done()] does what [done_processing]
    says: the [q.process()] that ends it returns at once. *)
Lemma call_done_processing done (d : @Dispatcher T) :
  isProcessing d = true -> call_done done d = done_processing done d.
Proof.
  intros H. unfold call_done, done_processing, process.
  destruct (AsyncQueue.callback done (_queue d)); [|reflexivity].
  simpl. rewrite H. reflexivity.
Qed.

Lemma done_processing_same_pending done (d : @Dispatcher T) :
  same_pending d (done_processing done d).1.
Proof.
  unfold done_processing.
  destruct (AsyncQueue.callback done (_queue d)) as [q|] eqn:E; [|apply same_pending_refl].
  apply AsyncQueue.callback_bound in E as (_ & _ & H). split; [exact H|reflexivity].
Qed.

Lemma emit_to_same_pending ls e : forall d : @Dispatcher T,
  same_pending d (emit_to done_processing ls e d).1.
Proof.
  induction ls as [|done ls IH]; intros d; simpl; [apply same_pending_refl|].
  assert (H : same_pending d (listener done_processing done e d).1).
  { destruct e; simpl; [split; reflexivity|..];
      (eapply same_pending_trans; [|apply done_processing_same_pending]);
      split; reflexivity. }
  destruct (listener done_processing done e d) as [d1 [|]]; simpl in *; [exact H|].
  eapply same_pending_trans; [exact H|apply IH].
Qed.

Lemma emit_all_same_pending r es : forall d : @Dispatcher T,
  same_pending d (emit_all done_processing r es d).1.
Proof.
  induction es as [|e es IH]; intros d; simpl; [apply same_pending_refl|].
  assert (H : same_pending d (emit done_processing r e d).1).
  { unfold emit. destruct (heap d !! r) as [o|]; [|apply same_pending_refl].
    destruct (listeners o) as [|l ls] eqn:El.
    - destruct e; apply same_pending_refl.
    - apply emit_to_same_pending. }
  destruct (emit done_processing r e d) as [d1 [|]]; simpl in *; [exact H|].
  eapply same_pending_trans; [exact H|apply IH].
Qed.

Lemma call_method_same_pending m r (d : @Dispatcher T) :
  same_pending d (call_method done_processing m r d).1.
Proof.
  unfold call_method. destruct (heap d !! r) as [o|]; [|apply same_pending_refl].
  destruct (m (this o)) as [[t' es] rest].
  match goal with |- context [emit_all done_processing r es ?d1] =>
    pose proof (emit_all_same_pending r es d1) as H;
    destruct (emit_all done_processing r es d1) as [d2 threw]
  end.
  simpl in H. destruct threw; [exact H|].
  destruct rest as [f|]; [|exact H].
  destruct (heap d2 !! r) as [o2|]; exact H.
Qed.

Lemma _invoke_same_pending r done (d : @Dispatcher T) :
  same_pending d (_invoke done_processing r done d).1.
Proof.
  unfold _invoke. destruct (heap d !! r) as [o|]; [|apply same_pending_refl].
  destruct (isPaused (this o)) as [paused|]; [|split; reflexivity].
  match goal with |- context [call_method done_processing ?m r ?d1] =>
    pose proof (call_method_same_pending m r d1) as H;
    destruct (call_method done_processing m r d1) as [d2 threw]
  end.
  simpl in H. destruct threw; [exact H|]. destruct (heap d2 !! r); exact H.
Qed.

(** The loop does not touch [isProcessing]: every [done()] called from
    inside it finds the flag set. *)
Lemma process_loop_isProcessing fuel : forall d : @Dispatcher T,
  isProcessing (process_loop fuel d).1 = isProcessing d.
Proof.
  induction fuel as [|fuel IH]; intros d; simpl; [reflexivity|].
  destruct (_ && _); [|reflexivity].
  destruct (0 <? tasksLength d); [|reflexivity].
  destruct (AsyncQueue._tasks (_queue d)) as [|r rest] eqn:Et; [reflexivity|].
  match goal with |- context [_invoke done_processing r ?done ?d1] =>
    pose proof (_invoke_same_pending r done d1) as [_ H];
    destruct (_invoke done_processing r done d1) as [d2 threw]
  end.
  simpl in H. destruct threw; simpl; [exact H|]. rewrite IH. exact H.
Qed.

(** Fuel beyond the number of pending tasks is never used. *)
Lemma process_loop_enough fuel : forall fuel' (d : @Dispatcher T),
  (length (AsyncQueue._tasks (_queue d)) < fuel)%nat ->
  (length (AsyncQueue._tasks (_queue d)) < fuel')%nat ->
  process_loop fuel d = process_loop fuel' d.
Proof.
  induction fuel as [|fuel IH]; intros fuel' d H1 H2; [lia|].
  destruct fuel' as [|fuel']; [lia|]. simpl.
  destruct (_ && _); [|reflexivity].
  destruct (0 <? tasksLength d); [|reflexivity].
  destruct (AsyncQueue._tasks (_queue d)) as [|r rest] eqn:Et; [reflexivity|].
  match goal with |- context [_invoke done_processing r ?done ?d1] =>
    pose proof (_invoke_same_pending r done d1) as [H _];
    destruct (_invoke done_processing r done d1) as [d2 threw]
  end.
  simpl in H, H1, H2. destruct threw; [reflexivity|].
  apply IH; rewrite H; lia.
Qed.

End Total.

(** *** Reference 0 *)

Section Reserved.

Context {T : Type} {transport : TransportClass T}.
Variable posix_join : string -> string -> string.
Variable join : string -> string -> string.

(** No object is stored at the reference that stands for the values that
    are not transports. *)
Definition reserved (d : @Dispatcher T) : Prop :=
  heap d !! not_a_transport = None /\ (0 < nextRef d)%nat.

Lemma run_reserved ls : reserved (run posix_join join ls new).
Proof.
  apply (run_respects posix_join join (fun d d' => reserved d -> reserved d')).
  - auto.
  - auto.
  - auto.
  - intros r o o' d Hr [H0 Hn]. split; [|exact Hn]. simpl.
    rewrite lookup_insert_ne; [exact H0|]. intros ->. congruence.
  - intros c t d _ [H0 Hn]. split; simpl; [|lia].
    rewrite lookup_insert_ne; [exact H0|]. unfold not_a_transport. lia.
  - auto.
  - auto.
  - auto.
  - auto.
  - auto.
  - auto.
  - auto.
  - split; [apply lookup_empty|simpl; lia].
Qed.

End Reserved.

(** *** The bound on active tasks *)

Section Bound.

Context {T : Type} {transport : TransportClass T}.
Variable posix_join : string -> string -> string.
Variable join : string -> string -> string.

(** The queue keeps its concurrency of 5 and never has more workers. *)
Definition bounded (d : @Dispatcher T) : Prop :=
  AsyncQueue.concurrency (_queue d) = 5%nat /\ (active d <= 5)%nat.

Lemma run_bounded ls d : bounded d -> bounded (run posix_join join ls d).
Proof.
  apply (run_respects posix_join join (fun d d' => bounded d -> bounded d'));
    try (intros; assumption).
  - auto.
  - intros done q d0 E [Hc Hn].
    apply AsyncQueue.callback_bound in E as (H1 & H2 & _).
    split; unfold active in *; simpl; [congruence|lia].
  - intros r d0 Hlt [Hc Hn].
    split; unfold active, AsyncQueue.numRunning in *; simpl; [exact Hc|].
    rewrite length_app. simpl. lia.
Qed.

(** C5. In every state the dispatcher reaches from its initial state,
    whatever messages, queue turns and transport callbacks occur and
    whatever class implements the transport interface, at most 5 tasks are
    active (invoked, with [done] not yet called). *)
Theorem dispatcher_at_most_five_active (ls : list Label) :
  (active (run posix_join join ls new) <= 5)%nat.
Proof.
  apply (run_bounded ls new). split; [reflexivity|].
  unfold active, AsyncQueue.numRunning. simpl. lia.
Qed.

End Bound.

End Dispatcher.

(** ** Further properties of the chunk planner *)
Module PlannerFacts.

Import JsNum MultiTransport.

(** The loop with an unbounded part size takes everything in one part. *)
Lemma decompose_loop_unbounded fuel left off pn :
  decompose_loop (S fuel) PosInf (Int left) (Int off) pn =
  if 0 <? left then Some [mkPart pn (Int left) (Int off)] else Some [].
Proof.
  simpl. destruct (0 <? left); [|reflexivity].
  rewrite decompose_loop_done; [reflexivity|]. simpl. rewrite Z.sub_diag. reflexivity.
Qed.

(** The closed form of the loop for a finite part size [a]: part [i] has
    number [pn + i], starts at [off + i * a] and takes [a] bytes or what is
    left; the parts stop exactly when nothing is left. *)
Lemma decompose_loop_closed fuel : forall a left off pn ps,
  0 < a ->
  decompose_loop fuel (Int a) (Int left) (Int off) pn = Some ps ->
  (forall (i : nat) p, ps !! i = Some p ->
     0 < left - Z.of_nat i * a /\
     p = mkPart (pn + Z.of_nat i) (Int (Z.min (left - Z.of_nat i * a) a))
           (Int (off + Z.of_nat i * a))) /\
  left <= Z.of_nat (length ps) * a.
Proof.
  induction fuel as [|fuel IH]; intros a left off pn ps Ha H; simpl in H.
  - destruct (0 <? left) eqn:E; [discriminate|]. apply Z.ltb_ge in E.
    injection H as <-. split; [intros i p Hi; discriminate|simpl; lia].
  - destruct (0 <? left) eqn:E.
    + apply Z.ltb_lt in E.
      destruct (decompose_loop fuel _ _ _ _) as [rest|] eqn:Er; [|discriminate].
      injection H as <-.
      destruct (IH _ _ _ _ _ Ha Er) as [Hrest Hcov].
      remember (Z.min left a) as m eqn:Hm. split.
      * intros [|i] p Hi; simpl in Hi.
        -- injection Hi as <-. split; [lia|].
           f_equal; [lia|f_equal; lia|f_equal; lia].
        -- destruct (Hrest i p Hi) as [Hpos ->].
           assert (m = a) as -> by nia.
           rewrite Nat2Z.inj_succ. split; [lia|].
           f_equal; [lia|f_equal; f_equal; lia|f_equal; lia].
      * simpl length. rewrite Nat2Z.inj_succ. nia.
    + apply Z.ltb_ge in E. injection H as <-.
      split; [intros i p Hi; discriminate|simpl; lia].
Qed.

(** The result of [_decompose] in closed form, for byte counts that leave
    something to upload: a part size [a] of at least [kPartSize], and the
    parts [i = 0, 1, ...] of that size (the last one smaller or equal)
    covering the rest of the file. *)
Lemma _decompose_closed {A : Type} (orderedParts : list A)
    (maxParts uploadSize totalSize : Z) :
  0 <= uploadSize ->
  exists ps a,
    _decompose orderedParts maxParts uploadSize totalSize = Some ps /\
    kPartSize <= a /\
    (forall (i : nat) p, ps !! i = Some p ->
       0 < totalSize - uploadSize - Z.of_nat i * a /\
       p = mkPart (Z.of_nat (length orderedParts) + 1 + Z.of_nat i)
             (Int (Z.min (totalSize - uploadSize - Z.of_nat i * a) a))
             (Int (uploadSize + Z.of_nat i * a))) /\
    totalSize - uploadSize <= Z.of_nat (length ps) * a.
Proof.
  intros Hup. pose proof kPartSize_pos as Hk. unfold _decompose.
  destruct (averagePartSize_cases totalSize (maxParts - Z.of_nat (length orderedParts)))
    as [(a & -> & Ha & _) | [(-> & _ & Hpos) | (-> & _ & ->)]].
  - destruct (decompose_loop_int (decompose_fuel uploadSize totalSize) a
                (totalSize - uploadSize) uploadSize
                (Z.of_nat (length orderedParts) + 1) Ha
                (decompose_fuel_enough _ _)) as (ps & Hps & _).
    exists ps, a. split; [exact Hps|]. split; [exact Ha|].
    eapply decompose_loop_closed; [|exact Hps]. lia.
  - unfold decompose_fuel. rewrite decompose_loop_unbounded.
    destruct (0 <? totalSize - uploadSize) eqn:E.
    + apply Z.ltb_lt in E.
      exists [mkPart (Z.of_nat (length orderedParts) + 1) (Int (totalSize - uploadSize))
                (Int uploadSize)], (Z.max kPartSize (totalSize - uploadSize)).
      split; [reflexivity|]. split; [lia|]. split.
      * intros [|[|i]] p Hi; simpl in Hi; try discriminate. injection Hi as <-.
        split; [lia|]. f_equal; [lia|f_equal; lia|f_equal; lia].
      * simpl. lia.
    + apply Z.ltb_ge in E. exists [], kPartSize.
      split; [reflexivity|]. split; [lia|]. split; [intros i p Hi; discriminate|simpl; lia].
  - unfold decompose_fuel. simpl.
    assert (E : (0 <? 0 - uploadSize) = false) by (apply Z.ltb_ge; lia).
    rewrite E. exists [], kPartSize.
    split; [reflexivity|]. split; [lia|]. split; [intros i p Hi; discriminate|simpl; lia].
Qed.

(** X1. Whatever the input, the parts returned by [_decompose] are numbered
    consecutively: the part at position [i] (from 0) has number
    [orderedParts.length + 1 + i]. *)
Theorem _decompose_part_numbers {A : Type} (orderedParts : list A)
    (maxParts uploadSize totalSize : Z) :
  exists ps,
    _decompose orderedParts maxParts uploadSize totalSize = Some ps /\
    forall (i : nat) p, ps !! i = Some p ->
      partNumber p = Z.of_nat (length orderedParts) + 1 + Z.of_nat i.
Proof.
  assert (Hnum : forall ps n, numbered_from n ps ->
            forall (i : nat) p, ps !! i = Some p -> partNumber p = n + Z.of_nat i).
  { induction ps as [|q ps IH]; intros n Hn i p Hi; [discriminate|].
    destruct Hn as [Hq Hn]. destruct i as [|i]; simpl in Hi.
    - injection Hi as <-. lia.
    - rewrite (IH _ Hn i p Hi). lia. }
  unfold _decompose.
  destruct (averagePartSize_cases totalSize (maxParts - Z.of_nat (length orderedParts)))
    as [(a & -> & Ha & _) | [(-> & _ & _) | (-> & _ & _)]].
  - destruct (decompose_loop_int (decompose_fuel uploadSize totalSize) a
                (totalSize - uploadSize) uploadSize
                (Z.of_nat (length orderedParts) + 1) Ha
                (decompose_fuel_enough _ _)) as (ps & Hps & _ & _ & Hn & _).
    exists ps. split; [exact Hps|]. apply Hnum, Hn.
  - unfold decompose_fuel. rewrite decompose_loop_unbounded.
    destruct (0 <? _); eexists; (split; [reflexivity|]).
    + intros [|[|i]] p Hi; simpl in Hi; try discriminate. injection Hi as <-. simpl. lia.
    + intros i p Hi; discriminate.
  - unfold decompose_fuel. simpl. destruct (0 <? _).
    + rewrite decompose_loop_done by reflexivity. eexists. split; [reflexivity|].
      intros [|[|i]] p Hi; simpl in Hi; try discriminate. injection Hi as <-. simpl. lia.
    + eexists. split; [reflexivity|]. intros i p Hi; discriminate.
Qed.

(** X2. [_decompose] returns no part exactly when nothing is left to
    upload, that is when [totalSize <= uploadSize]. *)
Theorem _decompose_empty_iff {A : Type} (orderedParts : list A)
    (maxParts uploadSize totalSize : Z) :
  exists ps,
    _decompose orderedParts maxParts uploadSize totalSize = Some ps /\
    (ps = [] <-> totalSize <= uploadSize).
Proof.
  destruct (_decompose_total orderedParts maxParts uploadSize totalSize) as [ps Hps].
  exists ps. split; [exact Hps|].
  unfold _decompose, decompose_fuel in Hps. simpl in Hps.
  destruct (0 <? totalSize - uploadSize) eqn:E.
  - apply Z.ltb_lt in E.
    destruct (decompose_loop _ _ _ _ _) in Hps; [|discriminate].
    injection Hps as <-. split; [discriminate|lia].
  - apply Z.ltb_ge in E. injection Hps as <-. split; [lia|reflexivity].
Qed.

(** X3. For an uploaded byte count that is not negative there is a part
    size of at least [kPartSize] (20 MiB) such that every returned part
    but the last has exactly that size, and the last has a positive size
    not above it. *)
Theorem _decompose_part_sizes {A : Type} (orderedParts : list A)
    (maxParts uploadSize totalSize : Z) :
  0 <= uploadSize ->
  exists ps a,
    _decompose orderedParts maxParts uploadSize totalSize = Some ps /\
    kPartSize <= a /\
    forall (i : nat) p, ps !! i = Some p ->
      exists s, partSize p = Int s /\ 0 < s <= a /\
                ((S i < length ps)%nat -> s = a).
Proof.
  intros Hup.
  destruct (_decompose_closed orderedParts maxParts uploadSize totalSize Hup)
    as (ps & a & Hps & Ha & Hparts & Hcov).
  exists ps, a. split; [exact Hps|]. split; [exact Ha|].
  intros i p Hi. destruct (Hparts i p Hi) as [Hpos ->].
  pose proof kPartSize_pos as Hk.
  eexists. split; [reflexivity|]. split; [lia|].
  intros Hlt.
  destruct (lookup_lt_is_Some_2 ps (S i) Hlt) as [q Hq].
  destruct (Hparts (S i) q Hq) as [Hpos' _].
  rewrite Nat2Z.inj_succ in Hpos'. lia.
Qed.

Lemma _decompose_part_sizes_witness :
  exists ps a,
    _decompose [1%nat] 1000 (20 * MiB) (55 * MiB) = Some ps /\
    kPartSize <= a /\
    forall (i : nat) p, ps !! i = Some p ->
      exists s, partSize p = Int s /\ 0 < s <= a /\
                ((S i < length ps)%nat -> s = a).
Proof.
  apply (_decompose_part_sizes [1%nat] 1000 (20 * MiB) (55 * MiB)).
  vm_compute. congruence.
Defined.

(** X4. When the part ceiling is used up exactly
    ([maxParts = orderedParts.length]) and bytes are left, the division by
    zero makes the part size infinite and [_decompose] returns one part
    holding all the remaining bytes, whatever their number. *)
Theorem _decompose_at_ceiling {A : Type} (orderedParts : list A)
    (uploadSize totalSize : Z) :
  0 <= uploadSize ->
  uploadSize < totalSize ->
  _decompose orderedParts (Z.of_nat (length orderedParts)) uploadSize totalSize =
  Some [mkPart (Z.of_nat (length orderedParts) + 1) (Int (totalSize - uploadSize))
          (Int uploadSize)].
Proof.
  intros Hup Hlt. unfold _decompose, ceil_div.
  rewrite Z.sub_diag. simpl (0 =? 0).
  assert (E : (0 <? totalSize) = true) by (apply Z.ltb_lt; lia).
  rewrite E. unfold decompose_fuel. simpl max. rewrite decompose_loop_unbounded.
  assert (E' : (0 <? totalSize - uploadSize) = true) by (apply Z.ltb_lt; lia).
  rewrite E'. reflexivity.
Qed.

Lemma _decompose_at_ceiling_witness :
  _decompose [1%nat; 2%nat] 2 (40 * MiB) (5000 * MiB) =
  Some [mkPart 3 (Int (5000 * MiB - 40 * MiB)) (Int (40 * MiB))].
Proof.
  apply (_decompose_at_ceiling [1%nat; 2%nat] (40 * MiB) (5000 * MiB));
    vm_compute; congruence.
Defined.

(** The byte range of the read stream that [_invoke] opens for a part. *)
Definition stream_of (mt : MultiTransport) (p : Part) : option ReadStream :=
  _stream (_invoke p mt).1.

(** X5. The read streams that [_invoke] opens for the parts planned by
    [_decompose] tile the rest of the file: the first starts at
    [uploadSize], each next one starts one byte after the end of the one
    before, and the last ends at byte [totalSize - 1]. *)
Theorem _decompose_streams_tile {A : Type} (orderedParts : list A)
    (maxParts uploadSize totalSize : Z) (mt : MultiTransport) :
  0 <= uploadSize ->
  uploadSize < totalSize ->
  exists ps,
    _decompose orderedParts maxParts uploadSize totalSize = Some ps /\
    (exists p0, ps !! 0%nat = Some p0 /\ rs_start <$> stream_of mt p0 = Some (Int uploadSize)) /\
    (forall (i : nat) p q, ps !! i = Some p -> ps !! S i = Some q ->
       exists e, rs_end <$> stream_of mt p = Some (Int e) /\
                 rs_start <$> stream_of mt q = Some (Int (e + 1))) /\
    (exists pl, last ps = Some pl /\
                rs_end <$> stream_of mt pl = Some (Int (totalSize - 1))).
Proof.
  intros Hup Hlt. pose proof kPartSize_pos as Hk.
  destruct (_decompose_closed orderedParts maxParts uploadSize totalSize Hup)
    as (ps & a & Hps & Ha & Hparts & Hcov).
  exists ps. split; [exact Hps|].
  assert (Hne : (0 < length ps)%nat) by (destruct ps; simpl in *; lia).
  repeat split.
  - destruct (lookup_lt_is_Some_2 ps 0 Hne) as [p0 Hp0]. exists p0. split; [exact Hp0|].
    destruct (Hparts _ _ Hp0) as [_ ->]. simpl. f_equal. f_equal. lia.
  - intros i p q Hp Hq.
    destruct (Hparts _ _ Hp) as [Hpos ->]. destruct (Hparts _ _ Hq) as [Hpos' ->].
    rewrite Nat2Z.inj_succ in *. simpl.
    eexists. split; [reflexivity|]. f_equal. f_equal. lia.
  - rewrite last_lookup. destruct (lookup_lt_is_Some_2 ps (pred (length ps))) as [pl Hpl];
      [lia|].
    exists pl. split; [exact Hpl|].
    destruct (Hparts _ _ Hpl) as [Hpos ->]. simpl. f_equal. f_equal.
    assert (Z.of_nat (length ps) = Z.of_nat (pred (length ps)) + 1) by lia.
    nia.
Qed.

Lemma _decompose_streams_tile_witness :
  exists ps,
    _decompose (@nil nat) 1000 0 (55 * MiB) = Some ps /\
    (exists p0, ps !! 0%nat = Some p0 /\
       rs_start <$> stream_of (mkMultiTransport Transport.sample None None Pending) p0 =
       Some (Int 0)) /\
    (forall (i : nat) p q, ps !! i = Some p -> ps !! S i = Some q ->
       exists e,
         rs_end <$> stream_of (mkMultiTransport Transport.sample None None Pending) p =
           Some (Int e) /\
         rs_start <$> stream_of (mkMultiTransport Transport.sample None None Pending) q =
           Some (Int (e + 1))) /\
    (exists pl, last ps = Some pl /\
       rs_end <$> stream_of (mkMultiTransport Transport.sample None None Pending) pl =
       Some (Int (55 * MiB - 1))).
Proof.
  apply (_decompose_streams_tile (@nil nat) 1000 0 (55 * MiB)
           (mkMultiTransport Transport.sample None None Pending));
    vm_compute; congruence.
Defined.

End PlannerFacts.

(** ** Further properties of the part queue *)
Module UploadFacts.

Import JsNum MultiTransport.

(** [_uploadedSize] after the parts [ps] were added to it. *)
Definition uploaded_plus (u : num) (ps : list Part) : num :=
  foldl (fun acc p => add acc (partSize p)) u ps.

(** One part [p] is in flight under callback [k], [rest] is pending. *)
Definition uploading (k : nat) (p : Part) (rest : list Part) (mt : MultiTransport) : Prop :=
  _queue mt = Some (AsyncQueue.mkQueue 1 rest [(k, p)] (S k)).

Lemma put_request_add_uploadedSize s b p :
  put_request (add_uploadedSize s b) p = put_request b p.
Proof. reflexivity. Qed.

(** The first queue turn after [resume] starts the first part only. *)
Lemma process_after_resume p rest mt :
  process (resume (p :: rest) mt) =
  (set_stream (Some (mkReadStream (start p) (sub (add (start p) (partSize p)) (Int 1))))
     (set_queue (Some (AsyncQueue.mkQueue 1 rest [(0%nat, p)] 1)) (resume (p :: rest) mt)),
   [CreateReadStream (Transport._localPath (base mt)) (start p)
      (sub (add (start p) (partSize p)) (Int 1));
    put_request (base mt) p]).
Proof.
  unfold process, resume. simpl. unfold AsyncQueue.process. simpl.
  destruct rest as [|p' rest']; reflexivity.
Qed.

(** A successful PUT with parts pending: the size is added and the next
    part, and only it, is started. *)
Lemma onPutResolved_next k p p' rest mt :
  uploading k p (p' :: rest) mt ->
  onPutResolved k mt =
  (set_stream (Some (mkReadStream (start p') (sub (add (start p') (partSize p')) (Int 1))))
     (set_queue (Some (AsyncQueue.mkQueue 1 rest [(S k, p')] (S (S k))))
        (set_base (add_uploadedSize (partSize p) (base mt)) mt)),
   [CreateReadStream (Transport._localPath (base mt)) (start p')
      (sub (add (start p') (partSize p')) (Int 1));
    put_request (base mt) p']).
Proof.
  unfold uploading, onPutResolved. intros ->.
  unfold worker_part, AsyncQueue.callback, AsyncQueue.is_worker. simpl.
  rewrite Nat.eqb_refl. simpl.
  rewrite filter_cons_False by (simpl; intros H; apply H; reflexivity).
  rewrite filter_nil. simpl.
  unfold process. simpl. unfold AsyncQueue.process. simpl.
  destruct rest as [|p'' rest']; reflexivity.
Qed.

(** A successful PUT with nothing pending: the size is added, the queue
    drains and the promise resolves. *)
Lemma onPutResolved_last k p mt :
  uploading k p [] mt ->
  resumed mt = Pending ->
  onPutResolved k mt =
  (set_resumed Resolved
     (set_queue (Some (AsyncQueue.mkQueue 1 [] [] (S k)))
        (set_base (add_uploadedSize (partSize p) (base mt)) mt)),
   []).
Proof.
  unfold uploading, onPutResolved. intros -> Hp.
  unfold worker_part, AsyncQueue.callback, AsyncQueue.is_worker. simpl.
  rewrite Nat.eqb_refl. simpl.
  rewrite filter_cons_False by (simpl; intros H; apply H; reflexivity).
  rewrite filter_nil. simpl. rewrite Hp. reflexivity.
Qed.

Lemma all_resolved rest : forall k p mt u,
  uploading k p rest mt ->
  resumed mt = Pending ->
  Transport._uploadedSize (base mt) = Some u ->
  let r := run (map PutResolved (seq k (S (length rest)))) mt in
  resumed r.1 = Resolved /\
  puts r.2 = map (put_request (base mt)) rest /\
  Transport._uploadedSize (base r.1) = Some (uploaded_plus u (p :: rest)) /\
  in_flight r.1 = 0%nat.
Proof.
  induction rest as [|p' rest IH]; intros k p mt u Hq Hp Hu; cbv zeta.
  - simpl. rewrite (onPutResolved_last k p mt Hq Hp). simpl. rewrite Hu.
    repeat split.
  - change (map PutResolved (seq k (S (length (p' :: rest)))))
      with (PutResolved k :: map PutResolved (seq (S k) (S (length rest)))).
    cbn [run step]. rewrite (onPutResolved_next k p p' rest mt Hq). cbv beta iota.
    match goal with |- context [run _ ?m] => set (mt1 := m) end.
    destruct (IH (S k) p' mt1 (add u (partSize p))) as (I1 & I2 & I3 & I4).
    { reflexivity. }
    { exact Hp. }
    { simpl. rewrite Hu. reflexivity. }
    destruct (run (map PutResolved (seq (S k) (S (length rest)))) mt1) as [mt2 a2].
    cbn [fst snd app] in *. repeat split; auto.
    unfold puts in *. rewrite filter_cons_False by discriminate.
    rewrite filter_cons_True by reflexivity. simpl. f_equal. exact I2.
Qed.

(** X6. When every PUT succeeds (one queue turn, then the requests
    settling in the order they were issued), a non-empty [remainParts] is
    uploaded completely: the PUTs issued are exactly those of
    [remainParts] in order, [_uploadedSize] has grown by the sizes of all
    parts, nothing is in flight and the promise of [resume] is resolved. *)
Theorem resume_all_parts_succeed (p : Part) (rest : list Part) (mt : MultiTransport)
    (u : num) :
  Transport._uploadedSize (base mt) = Some u ->
  let r := run (Process :: map PutResolved (seq 0 (S (length rest))))
             (resume (p :: rest) mt) in
  resumed r.1 = Resolved /\
  puts r.2 = map (put_request (base mt)) (p :: rest) /\
  Transport._uploadedSize (base r.1) = Some (uploaded_plus u (p :: rest)) /\
  in_flight r.1 = 0%nat.
Proof.
  intros Hu. cbv zeta. cbn [run step]. rewrite process_after_resume. cbv beta iota.
  match goal with |- context [run _ ?m] => set (mt1 := m) end.
  destruct (all_resolved rest 0 p mt1 u) as (H1 & H2 & H3 & H4).
  { reflexivity. }
  { reflexivity. }
  { exact Hu. }
  destruct (run (map PutResolved (seq 0 (S (length rest)))) mt1) as [mt2 a2].
  cbn [fst snd app] in *. repeat split; auto.
  unfold puts in *. rewrite filter_cons_False by discriminate.
  rewrite filter_cons_True by reflexivity. simpl. f_equal. exact H2.
Qed.

(** An upload that holds a session and has 40 bytes accepted. *)
Definition sample_upload : MultiTransport :=
  mkMultiTransport
    (Transport.mkTransport "task-1" "dir/object" "/data/object" "bucket" Headers.Running
       None (Debounce.create 10000) (Some "upload-1") (Some (Int 40)))
    None None Pending.

Lemma resume_all_parts_succeed_witness :
  let p := mkPart 3 (Int 20) (Int 40) in
  let rest := [mkPart 4 (Int 20) (Int 60); mkPart 5 (Int 15) (Int 80)] in
  let r := run (Process :: map PutResolved (seq 0 (S (length rest))))
             (resume (p :: rest) sample_upload) in
  resumed r.1 = Resolved /\
  puts r.2 = map (put_request (base sample_upload)) (p :: rest) /\
  Transport._uploadedSize (base r.1) = Some (Int 95) /\
  in_flight r.1 = 0%nat.
Proof.
  apply (resume_all_parts_succeed (mkPart 3 (Int 20) (Int 40))
           [mkPart 4 (Int 20) (Int 60); mkPart 5 (Int 15) (Int 80)]
           sample_upload (Int 40)).
  reflexivity.
Defined.

(** The queue has neither pending parts nor workers. *)
Definition stopped (mt : MultiTransport) : Prop :=
  exists q, _queue mt = Some q /\ AsyncQueue._tasks q = [] /\ AsyncQueue.workersList q = [].

Lemma stopped_step s mt :
  stopped mt ->
  stopped (step s mt).1 /\ puts (step s mt).2 = [] /\
  resumed (step s mt).1 = resumed mt /\
  Transport._uploadedSize (base (step s mt).1) = Transport._uploadedSize (base mt).
Proof.
  intros (q & Hq & Ht & Hw).
  assert (Hproc : process mt = (mt, [])).
  { unfold process. rewrite Hq. unfold AsyncQueue.process. rewrite Ht. simpl.
    unfold set_queue. rewrite <- Hq. destruct mt; reflexivity. }
  assert (Hst : stopped mt) by (exists q; auto).
  destruct s as [|cb|cb err|now rate bytes|now]; simpl.
  - rewrite Hproc. auto.
  - unfold onPutResolved, worker_part. rewrite Hq, Hw. simpl. auto.
  - unfold onPutRejected, worker_part. rewrite Hq, Hw. simpl. auto.
  - unfold onProgress. destruct (_stream mt); simpl; [|auto].
    split; [exists q; auto|auto].
  - unfold onTimer. destruct (Debounce.expire _ _) as [[|] d]; [destruct (_stream mt)|];
      simpl; (split; [exists q; auto|auto]).
Qed.

Lemma stopped_run ss : forall mt,
  stopped mt ->
  puts (run ss mt).2 = [] /\
  resumed (run ss mt).1 = resumed mt /\
  Transport._uploadedSize (base (run ss mt).1) = Transport._uploadedSize (base mt).
Proof.
  induction ss as [|s ss IH]; intros mt H; simpl; [auto|].
  destruct (stopped_step s mt H) as (H1 & H2 & H3 & H4).
  destruct (step s mt) as [mt1 a1]. simpl in *.
  destruct (IH mt1 H1) as (I1 & I2 & I3).
  destruct (run ss mt1) as [mt2 a2]. simpl in *.
  unfold puts in *. rewrite filter_app, H2, I1. repeat split; congruence.
Qed.

(** X7. When the PUT in flight fails, the queue is killed: the promise of
    [resume] is rejected with that error, the failed part is not added to
    [_uploadedSize], and whatever the runtime delivers afterwards no
    further PUT is issued and the promise stays rejected, however many
    parts were still pending. *)
Theorem put_failure_stops_upload (k : nat) (p : Part) (rest : list Part)
    (err : Transport.Err) (ss : list Signal) (mt : MultiTransport) :
  uploading k p rest mt ->
  resumed mt = Pending ->
  let r := run (PutRejected k err :: ss) mt in
  puts r.2 = [] /\
  resumed r.1 = Rejected err /\
  Transport._uploadedSize (base r.1) = Transport._uploadedSize (base mt).
Proof.
  unfold uploading. intros Hq Hp. cbv zeta. cbn [run step].
  assert (Hrej : onPutRejected k err mt =
            (set_resumed (Rejected err)
               (set_queue (Some (AsyncQueue.mkQueue 1 [] [] (S k))) mt), [])).
  { unfold onPutRejected. rewrite Hq.
    unfold worker_part, AsyncQueue.callback, AsyncQueue.is_worker. simpl.
    rewrite Nat.eqb_refl. simpl.
    rewrite filter_cons_False by (simpl; intros H; apply H; reflexivity).
    rewrite filter_nil. simpl. rewrite Hp. reflexivity. }
  rewrite Hrej.
  destruct (stopped_run ss (set_resumed (Rejected err)
              (set_queue (Some (AsyncQueue.mkQueue 1 [] [] (S k))) mt)))
    as (H1 & H2 & H3); [eexists; simpl; eauto|].
  destruct (run ss _) as [mt2 a2]. simpl in *. auto.
Qed.

Lemma put_failure_stops_upload_witness :
  let mt := (run [Process]
               (resume [mkPart 1 (Int 20) (Int 0); mkPart 2 (Int 20) (Int 20)]
                  (mkMultiTransport Transport.sample None None Pending))).1 in
  let r := run [PutRejected 0 (Transport.ErrStr "reset"); Process; PutResolved 0;
                PutResolved 1; Process] mt in
  puts r.2 = [] /\
  resumed r.1 = Rejected (Transport.ErrStr "reset") /\
  Transport._uploadedSize (base r.1) = Transport._uploadedSize (base mt).
Proof.
  apply (put_failure_stops_upload 0 (mkPart 1 (Int 20) (Int 0))
           [mkPart 2 (Int 20) (Int 20)] (Transport.ErrStr "reset")
           [Process; PutResolved 0; PutResolved 1; Process]);
    reflexivity.
Defined.

End UploadFacts.

(** ** Further properties of the download transport *)
Module DownloadFacts.

Import Headers JsNum Transport.

Definition opens_append (a : Action) : bool :=
  match a with
  | CreateWriteStream _ flags => bool_decide (flags = "a")
  | _ => false
  end.

(** X8. [start] on a present, non-empty local file that is smaller than
    the remote object and newer than it resumes the download: the file is
    opened for append and one GET is sent with [Range: bytes=size-remote],
    the task being Running.  Conversely [start] opens the file for append
    only in that case. *)
Theorem start_present_range_resume (now size mtime : Z) (res : Metadata) (t : Transport) :
  (size <> 0 /\ lt (Int size) (xMetaSize res) = true /\
   le (Int mtime) (xMetaModifiedTime res) = false ->
   start_present now size mtime res t =
   (set_outputStream (Some (mkWriteStream "a" false now size)) (set_state Running t),
    [GetObjectMetadata (_bucketName t) (_objectKey t);
     CreateWriteStream (_localPath t) "a";
     SendGet (_bucketName t) (_objectKey t)
       ("bytes=" +:+ show_Z size +:+ "-" +:+ show_num (xMetaSize res))])) /\
  (existsb opens_append (start_present now size mtime res t).2 = true ->
   size <> 0 /\ lt (Int size) (xMetaSize res) = true /\
   le (Int mtime) (xMetaModifiedTime res) = false).
Proof.
  rewrite start_present_unfold. cbv zeta. unfold start_onMetadata. split.
  - intros (Hne & Hlt & Hnew). rewrite Hlt, Hnew.
    assert (E : ge (Int size) (xMetaSize res) = false).
    { destruct (xMetaSize res) as [z| | |]; simpl in *; try discriminate; [|reflexivity].
      unfold ge, le. simpl. apply Z.ltb_lt in Hlt. apply orb_false_iff.
      split; [apply Z.ltb_ge|apply Z.eqb_neq]; lia. }
    rewrite E. simpl. unfold resume.
    assert (E6 : (size =? 0) = false) by (apply Z.eqb_neq; lia).
    rewrite E6. reflexivity.
  - destruct (ge _ _ || le _ _) eqn:E1; [simpl; discriminate|].
    apply orb_false_iff in E1 as [_ E1].
    destruct (lt _ _) eqn:E2.
    + unfold resume. destruct (size =? 0) eqn:E3; [simpl; discriminate|].
      apply Z.eqb_neq in E3. intros _. auto.
    + unfold _checkFinish. simpl. discriminate.
Qed.

Lemma start_present_range_resume_witness :
  start_present 100 3 9 (mkMetadata (Int 7) (Int 5)) sample =
  (set_outputStream (Some (mkWriteStream "a" false 100 3)) (set_state Running sample),
   [GetObjectMetadata "bucket" "dir/object";
    CreateWriteStream "/data/object" "a";
    SendGet "bucket" "dir/object" "bytes=3-7"]).
Proof.
  destruct (start_present_range_resume 100 3 9 (mkMetadata (Int 7) (Int 5)) sample)
    as [H _].
  apply H. repeat split. discriminate.
Defined.

(** X9. [start] on an absent local file never asks for the remote
    metadata.  If the directory can be created it opens a truncating write
    stream and sends one GET without range, the task being Running; if
    [mkdirp] throws, the task ends in Error with exactly one error event
    and neither a stream nor a request. *)
Theorem start_absent_file (now : Z) (t : Transport) :
  start now (Absent None) t =
    (set_outputStream (Some (mkWriteStream "w" false now 0)) (set_state Running t),
     [MkdirpDirname (_localPath t);
      CreateWriteStream (_localPath t) "w";
      SendGet (_bucketName t) (_objectKey t) ""]) /\
  forall ex, exists desc,
    start now (Absent (Some ex)) t =
    (set_state Error t, [MkdirpDirname (_localPath t); Emit (EvError (_uuid t) desc)]).
Proof.
  split; [reflexivity|]. intros ex. unfold start.
  destruct (_checkError_running ex (set_state Running t) eq_refl) as [desc ->].
  exists desc. reflexivity.
Qed.

(** What may happen to a transport without [start] or [pause] being
    called: a callback of the runtime, or a call of [resume]. *)
Inductive Later : Type :=
  | Callback (cb : Dispatcher.DownloadCallback)
  | Resume (now begin : Z) (end_ : num).

Definition later (l : Later) (t : Transport) : Transport * list Action :=
  match l with
  | Callback cb => Dispatcher.settle_download cb t
  | Resume now begin end_ => resume now begin end_ t
  end.

Fixpoint later_all (ls : list Later) (t : Transport) : Transport * list Action :=
  match ls with
  | [] => (t, [])
  | l :: rest =>
      let '(t1, a1) := later l t in
      let '(t2, a2) := later_all rest t1 in
      (t2, a1 ++ a2)
  end.

Lemma later_not_running l t :
  isRunning t = false ->
  _state (later l t).1 = _state t /\
  existsb is_terminal_event (later l t).2 = false.
Proof.
  intros H.
  assert (HF := _checkFinish_not_running t H).
  assert (HE := fun err => _checkError_not_running err t H).
  destruct l as [cb|now begin end_]; [|split; reflexivity].
  destruct cb as [now size mtime res|err| |err|now bytes|rb rt bw|err|now stack]; simpl.
  - unfold start_onMetadata. destruct (_ || _); [split; reflexivity|].
    destruct (lt _ _); [split; reflexivity|]. rewrite HF. split; reflexivity.
  - unfold start_onMetadataError. rewrite HE. split; reflexivity.
  - unfold onGetResolved. rewrite HF. split; reflexivity.
  - unfold onGetRejected. rewrite HE. split; reflexivity.
  - unfold onDrain. destruct (_outputStream t); split; reflexivity.
  - split; reflexivity.
  - unfold onStreamError. destruct (bool_decide _); [rewrite HE|]; split; reflexivity.
  - unfold onTimer. destruct (Debounce.expire _ _) as [[|] d]; [|split; reflexivity].
    unfold _onTimeout. simpl.
    destruct (_outputStream t); [|split; reflexivity].
    unfold isRunning in *. simpl. rewrite H. split; reflexivity.
Qed.

(** X10. Only [start] makes a transport Running.  From any other state
    (UnStarted, Paused, Finished, Error), whatever callbacks arrive
    (metadata, settled GET, drain, stream error, watchdog timer) and
    however often [resume] is called, the state stays as it is and no
    finish or error event is emitted; in particular a paused transport
    that is re-opened with [resume] never reports its completion. *)
Theorem only_start_makes_running (t : Transport) (ls : list Later) :
  _state t <> Running ->
  _state (later_all ls t).1 = _state t /\
  existsb is_terminal_event (later_all ls t).2 = false.
Proof.
  intros H. apply isRunning_false in H. revert t H.
  induction ls as [|l ls IH]; intros t H; simpl; [split; reflexivity|].
  destruct (later_not_running l t H) as [H1 H2].
  destruct (later l t) as [t1 a1]. simpl in *.
  assert (H' : isRunning t1 = false).
  { apply isRunning_false. rewrite H1. apply isRunning_false, H. }
  destruct (IH t1 H') as [I1 I2].
  destruct (later_all ls t1) as [t2 a2]. simpl in *.
  split; [congruence|]. rewrite existsb_app, H2, I2. reflexivity.
Qed.

Lemma only_start_makes_running_witness :
  let t := (pause (start 0 (Absent None) sample).1).1 in
  let ls := [Resume 50 0 (Int 0); Callback (Dispatcher.Drain 60 512);
             Callback Dispatcher.GetResolved;
             Callback (Dispatcher.Timer 20000 "at Timeout")] in
  _state (later_all ls t).1 = _state t /\
  existsb is_terminal_event (later_all ls t).2 = false.
Proof.
  apply (only_start_makes_running (pause (start 0 (Absent None) sample).1).1
           [Resume 50 0 (Int 0); Callback (Dispatcher.Drain 60 512);
            Callback Dispatcher.GetResolved;
            Callback (Dispatcher.Timer 20000 "at Timeout")]).
  discriminate.
Defined.

(** X11. [pause] called while [start] waits for the metadata does not
    cancel the download: when numeric metadata arrive, a write stream is
    still opened and a GET is still sent, while the task stays Paused. *)
Theorem pause_before_metadata_still_downloads (now size mtime remote remoteTime : Z)
    (t : Transport) :
  let t1 := (pause (start now (Present size mtime) t).1).1 in
  let r := start_onMetadata now size mtime (mkMetadata (Int remote) (Int remoteTime)) t1 in
  _state r.1 = Paused /\
  existsb opens_stream r.2 = true /\
  existsb reads_network r.2 = true /\
  (ended <$> _outputStream r.1) = Some false.
Proof.
  cbv zeta. unfold start_onMetadata.
  destruct (ge _ _ || le _ _) eqn:E1.
  - unfold pause, start. simpl. destruct (_outputStream t); simpl; repeat split.
  - destruct (lt _ _) eqn:E2.
    + unfold pause, start, resume. simpl.
      destruct (_outputStream t), (size =? 0); simpl; repeat split.
    + exfalso. apply orb_false_iff in E1 as [E1 _].
      unfold ge, le in E1. simpl in *. apply orb_false_iff in E1 as [E1 E1'].
      apply Z.ltb_ge in E1, E2. apply Z.eqb_neq in E1'. lia.
Qed.

End DownloadFacts.

(** ** Further properties of the dispatcher *)
Module DispatcherFacts.

Import Headers Dispatcher.

(** *** Admission with the [Transport] class of the sources *)

(** Nothing was stored and nothing was sent. *)
Definition inert (d : @Dispatcher Transport.Transport) : Prop :=
  _transportCache d = ∅ /\ heap d = ∅ /\ sent d = [].

Lemma inert_same d d' :
  _transportCache d' = _transportCache d -> heap d' = heap d -> sent d' = sent d ->
  inert d -> inert d'.
Proof. intros H1 H2 H3 (A & B & C). unfold inert. rewrite H1, H2, H3. auto. Qed.

Lemma call_method_no_object (k : @Done Transport.Transport)
    (m : Method Transport.Transport) r d :
  heap d !! r = None -> call_method k m r d = (d, true).
Proof. intros H. unfold call_method. rewrite H. reflexivity. Qed.

Lemma process_inert d : inert d -> inert (process d).1.
Proof.
  intros H. pose proof H as (_ & Hh & _). unfold process.
  destruct (isProcessing d); [exact H|]. cbn [process_loop].
  destruct (_ && _); [|revert H; apply inert_same; reflexivity].
  destruct (0 <? _); [|revert H; apply inert_same; reflexivity].
  simpl. destruct (AsyncQueue._tasks (_queue d)) as [|r rest];
    [revert H; apply inert_same; reflexivity|].
  unfold _invoke. simpl. rewrite Hh, lookup_empty.
  revert H; apply inert_same; reflexivity.
Qed.

Lemma resumeItem_inert u d : inert d -> inert (resumeItem u d).
Proof.
  unfold resumeItem, unshift. destruct (cache_get u d); [|auto].
  destruct (AsyncQueue._tasks (_queue d)); apply inert_same; reflexivity.
Qed.

(** [addItem] with an id that is not in the cache object: the constructor
    throws and the dispatcher is as it was. *)
Lemma addItem_fresh_throws (c : Config) (d : @Dispatcher Transport.Transport) :
  uuid c <> "" -> cache_get (uuid c) d = None -> addItem c d = (d, true).
Proof.
  intros Hne Hc. unfold addItem. rewrite bool_decide_eq_false_2 by exact Hne.
  rewrite Hc. reflexivity.
Qed.

Lemma addItem_inert c d : inert d -> inert (addItem c d).1.
Proof.
  intros H. unfold addItem. destruct (bool_decide _); [exact H|].
  destruct (cache_get (uuid c) d); [apply resumeItem_inert, H|exact H].
Qed.

Lemma addPatch_inert pj j u b p keys l : forall d,
  inert d -> inert (addPatch pj j u b p keys l d).1.
Proof.
  induction keys as [|key keys IH]; intros d H; simpl; [exact H|].
  match goal with |- context [addItem ?c d] =>
    pose proof (addItem_inert c d H) as H1; destruct (addItem c d) as [d1 [|]]
  end; simpl in *; [exact H1|apply IH, H1].
Qed.

Lemma step_inert pj j d l : inert d -> inert (step pj j d l).
Proof.
  intros H. pose proof H as (_ & Hh & _). destruct l as [m| |r cb|w]; simpl.
  - destruct m as [c|u b p keys lp|u| |u]; simpl.
    + apply addItem_inert, H.
    + apply addPatch_inert, H.
    + unfold pauseItem. destruct (cache_get u d); [|exact H].
      rewrite call_method_no_object; [exact H|]. rewrite Hh. apply lookup_empty.
    + unfold pauseAll. destruct (AsyncQueue._tasks (_queue d)) as [|r rest]; [exact H|].
      simpl. rewrite call_method_no_object; [exact H|]. rewrite Hh. apply lookup_empty.
    + apply resumeItem_inert, H.
  - apply process_inert, H.
  - rewrite call_method_no_object; [exact H|]. rewrite Hh. apply lookup_empty.
  - revert H. apply inert_same; reflexivity.
Qed.

(** X12. With the [Transport] class of the sources no [addItem] or
    [addPatch] message ever creates a transport: [addItem] calls the
    constructor with one argument, the constructor destructures its second
    one and throws before the cache is written.  So in every state the
    dispatcher reaches from its initial state the cache holds no task,
    there is no transport object and no notification was sent. *)
Theorem addItem_never_creates_a_transport (posix_join join : string -> string -> string)
    (ls : list (@Label Transport.Transport download)) :
  let d := run posix_join join ls new in
  _transportCache d = ∅ /\ heap d = ∅ /\ sent d = [].
Proof.
  assert (H : forall d, inert d -> inert (run posix_join join ls d)).
  { induction ls as [|l ls IH]; intros d Hd; simpl; [exact Hd|].
    apply IH, step_inert, Hd. }
  apply H. repeat split.
Qed.

(** An id that names a property of [Object.prototype] is found in the
    empty cache object: what is queued for it is not a transport, and the
    queue turn that takes it throws at [transport.on], with the slot taken
    and [isProcessing] left set. *)
Example addItem_inherited_name :
  let d :=
    run String.append String.append
      [OnMessage (addItem_msg (mkConfig "toString" "bucket" "key" "/data/file")); QueueTurn]
      (new (T := Transport.Transport)) in
  AsyncQueue._tasks (_queue d) = [] /\
  AsyncQueue.workersList (_queue d) = [(0%nat, not_a_transport)] /\
  isProcessing d = true.
Proof. vm_compute. repeat split. Qed.

(** *** A queue turn never starts a download *)

Definition is_start (s : Sent) : bool :=
  match s with
  | SendUuid NotifyStart _ => true
  | _ => false
  end.

(** The [NotifyStart] messages among those sent. *)
Definition starts (d : @Dispatcher Transport.Transport) : list Sent :=
  List.filter is_start (sent d).


(** X18. No queue turn ever starts a download: [_invoke] registers its
    listeners and then calls [transport.isPaused()], which the [Transport]
    class of the sources does not define, so it throws before [start()] or
    [resume()] is called and before [NotifyStart] is sent.  From any state
    of the dispatcher, whatever messages, queue turns and callbacks follow,
    the [NotifyStart] messages sent are those that were sent before. *)
Theorem queueTurn_never_starts (posix_join join : string -> string -> string)
    (ls : list (@Label Transport.Transport download))
    (d : @Dispatcher Transport.Transport) :
  starts (run posix_join join ls d) = starts d.
Proof.
  apply (run_respects posix_join join (fun d d' => starts d' = starts d));
    try reflexivity.
  - intros d1 d2 d3 H1 H2. congruence.
  - intros c e d0. unfold starts. simpl. rewrite List.filter_app. simpl.
    apply app_nil_r.
  - intros t paused u d0 H. discriminate H.
Qed.

(** *** Terminal events of an invoked download *)

(** The download of task [u]: fresh, and started on an absent file. *)
Definition download_of (u : string) : Transport.Transport :=
  Transport.new u "bucket" ("key-" +:+ u) ("/data/" +:+ u).

Definition started (u : string) : Transport.Transport :=
  (Transport.start 0 (Transport.Absent None) (download_of u)).1.

(** A dispatcher with two cached downloads.  Task g was taken by a queue
    turn under callback 0: its object has the listeners of that [_invoke],
    which threw at [isPaused()] and so left [isProcessing] set; the
    download was started since.  Task b is pending and was never
    invoked. *)
Definition one_active : @Dispatcher Transport.Transport :=
  mkDispatcher
    (list_to_map [("g", 1%nat); ("b", 2%nat)])
    (list_to_map [(1%nat, mkObject (started "g") [0%nat]);
                  (2%nat, mkObject (download_of "b") [])])
    (AsyncQueue.mkQueue 5 [2%nat] [(0%nat, 1%nat)] 1)
    1 true (mkWorld 0 (fun _ => Transport.Absent None)) [] 3.








(** In [one_active] the slot that task g gives back is not taken again:
    the [q.process()] that ends [done()] returns at once because
    [isProcessing] was left set, and task b stays pending. *)
Example finish_then_no_next_task :
  let d' := step String.append String.append one_active (Settle 1 GetResolved) in
  AsyncQueue._tasks (_queue d') = [2%nat] /\
  AsyncQueue.workersList (_queue d') = [] /\
  heap d' !! 2%nat = Some (mkObject (download_of "b") []) /\
  sent d' = [SendEvent NotifyFinished (Transport.EvFinish "g" "key-g")].
Proof. vm_compute. repeat split. Qed.

(** Were [isProcessing] not set, the slot would go to task b in the same
    call: b is taken under the next callback and its object gets the
    listeners of [_invoke], which then throws. *)
Example finish_then_next_task :
  let d' :=
    step String.append String.append (set_isProcessing false one_active)
      (Settle 1 GetResolved) in
  AsyncQueue._tasks (_queue d') = [] /\
  AsyncQueue.workersList (_queue d') = [(1%nat, 2%nat)] /\
  heap d' !! 2%nat = Some (mkObject (download_of "b") [1%nat]) /\
  isProcessing d' = true /\
  sent d' = [SendEvent NotifyFinished (Transport.EvFinish "g" "key-g")].
Proof. vm_compute. repeat split. Qed.





(** *** A listener that throws

    The download of task g, running, with the watchdog armed by a drain at
    time 0; its only listener belongs to a callback that was called
    already. *)
Definition stale_listener : @Dispatcher Transport.Transport :=
  mkDispatcher
    (list_to_map [("g", 1%nat)])
    (list_to_map [(1%nat, mkObject (Transport.onDrain 0 512 (started "g")).1 [0%nat])])
    (AsyncQueue.mkQueue 5 [] [] 1)
    0 false (mkWorld 0 (fun _ => Transport.Absent None)) [] 2.

(** When the watchdog fires, [_checkError] emits the error, the listener
    sends [NotifyError] and its [done()] throws; the exception leaves
    [_onTimeout] before [this._outputStream.end()], so the task is in
    state Error with its write stream still open. *)
Example timeout_under_stale_listener :
  let d' := step String.append String.append stale_listener (Settle 1 (Timer 10000 "")) in
  (exists desc, sent d' = [SendEvent NotifyError (Transport.EvError "g" desc)]) /\
  (Transport._state <$> (this <$> heap d' !! 1%nat)) = Some Error /\
  ((fun t => Transport.ended <$> Transport._outputStream t) <$> (this <$> heap d' !! 1%nat))
    = Some (Some false).
Proof. vm_compute. split; [eexists; reflexivity|]. split; reflexivity. Qed.

(** *** [pauseAll] *)






(** *** The queue with a class that can be started

    Not a class of the repository: the [Transport] of the sources behind
    the two calls of the dispatcher that it does not answer, a constructor
    that takes the one object [addItem] passes and an [isPaused()] that
    tests the state as [isRunning()] does.  It serves to run the queue
    below; nothing else uses it. *)
Definition adapter : TransportClass Transport.Transport := {|
  Callback := DownloadCallback;
  construct c :=
    Some (Transport.new (uuid c) (bucketName c) (objectKey c) (localPath c));
  _uuid := Transport._uuid;
  isPaused t := Some (bool_decide (Transport._state t = Paused));
  start w t := emitting (Transport.start (clock w) (files w (Transport._localPath t))) t;
  resume w := emitting (Transport.resume (clock w) 0 (JsNum.Int 0));
  pause := emitting Transport.pause;
  settle cb := emitting (settle_download cb);
|}.

(** Seven tasks admitted in a burst, and the queue turn that follows. *)
Definition burst : list (@Label Transport.Transport adapter) :=
  map (fun u => OnMessage (addItem_msg (mkConfig u "bucket" ("key-" +:+ u) ("/data/" +:+ u))))
    ["a"; "b"; "c"; "d"; "e"; "f"; "g"] ++ [QueueTurn].

(** One queue turn starts five of the seven, the latest admitted first
    since [addItem] enters tasks at the front, and two stay pending. *)
Example burst_of_seven :
  let d := run (transport := adapter) String.append String.append burst new in
  active d = 5%nat /\
  AsyncQueue._tasks (_queue d) = [2%nat; 1%nat] /\
  sent d = map (SendUuid NotifyStart) ["g"; "f"; "e"; "d"; "c"].
Proof. vm_compute. repeat split. Qed.

(** When the download of g finishes, its [done()] starts the head of the
    pending queue in the same call: five tasks are active again. *)
Example finish_starts_next :
  let d :=
    run (transport := adapter) String.append String.append
      (burst ++ [Settle (transport := adapter) 7 GetResolved]) new in
  active d = 5%nat /\
  AsyncQueue._tasks (_queue d) = [1%nat] /\
  _transportCache d !! "g" = None /\
  sent d = map (SendUuid NotifyStart) ["g"; "f"; "e"; "d"; "c"] ++
           [SendEvent NotifyFinished (Transport.EvFinish "g" "key-g");
            SendUuid NotifyStart "b"].
Proof. vm_compute. repeat split. Qed.

(** [pauseItem] and [resumeItem] on the active task g: its slot goes to b
    at once, and g waits at the front of the queue, the same object, now
    Paused. *)
Example pauseItem_resumeItem_active :
  let d :=
    run (transport := adapter) String.append String.append
      (burst ++ [OnMessage (transport := adapter) (pauseItem_msg "g");
                 OnMessage (resumeItem_msg "g")]) new in
  active d = 5%nat /\
  AsyncQueue._tasks (_queue d) = [7%nat; 1%nat] /\
  _transportCache d !! "g" = Some 7%nat /\
  (Transport._state <$> (this <$> heap d !! 7%nat)) = Some Paused /\
  sent d = map (SendUuid NotifyStart) ["g"; "f"; "e"; "d"; "c"] ++
           [SendEvent NotifyPaused (Transport.EvPause "g"); SendUuid NotifyStart "b"].
Proof. vm_compute. repeat split. Qed.

End DispatcherFacts.


(** ** The upload's [start] after the parts were listed

    The part of [MultiTransport.start] that follows
    [await this._fetchParts()]: ordering the listed parts, summing their
    sizes, planning the remaining parts and either starting the part queue
    or going on to complete the upload.  The calls into the base class
    ([_completeUpload]) appear as actions. *)
Module UploadStart.

Import JsNum.

(** A part as listed by the service: [{partNumber, size}]. *)
Record ListedPart : Type := mkListedPart {
  partNumber : Z;
  size : Z;
}.

(** [parts.sort((lhs, rhs) => lhs.partNumber - rhs.partNumber)]: the
    stable ascending order by part number. *)
Fixpoint insert_part (p : ListedPart) (l : list ListedPart) : list ListedPart :=
  match l with
  | [] => [p]
  | q :: rest =>
      if partNumber p <=? partNumber q then p :: q :: rest
      else q :: insert_part p rest
  end.

Definition sort_parts (parts : list ListedPart) : list ListedPart :=
  foldr insert_part [] parts.

(** [parts.reduce((pre, cur) => pre + cur.size, 0)], on the array that
    [sort] has ordered in place. *)
Definition sum_size (parts : list ListedPart) : Z :=
  foldl (fun pre cur => pre + size cur) 0 parts.

Inductive Action : Type :=
  | EmitStart (uuid : string) (uploadId : option string) (localPath : string)
  | CompleteUpload.

(** [this._uploadedSize = ...] *)
Definition set_uploadedSize (u : num) (b : Transport.Transport) : Transport.Transport :=
  Transport.mkTransport (Transport._uuid b) (Transport._objectKey b)
    (Transport._localPath b) (Transport._bucketName b) (Transport._state b)
    (Transport._outputStream b) (Transport._checkAlive b) (Transport._uploadId b)
    (Some u).

(** The continuation of [await this._fetchParts()] for a local file of
    [fileSize] bytes, up to the next [await]. *)
Definition onPartsListed (parts : list ListedPart) (maxParts fileSize : Z)
    (mt : MultiTransport.MultiTransport) : MultiTransport.MultiTransport * list Action :=
  let orderedParts := sort_parts parts in
  let uploadedSize := sum_size orderedParts in
  let mt1 :=
    MultiTransport.set_base (set_uploadedSize (Int uploadedSize) (MultiTransport.base mt)) mt in
  match MultiTransport._decompose orderedParts maxParts uploadedSize fileSize with
  | Some (p :: rest) =>
      (MultiTransport.resume (p :: rest) mt1,
       [EmitStart (Transport._uuid (MultiTransport.base mt))
          (Transport._uploadId (MultiTransport.base mt))
          (Transport._localPath (MultiTransport.base mt))])
  | Some [] => (mt1, [CompleteUpload])
  | None => (mt1, [])
  end.

Lemma length_insert_part p l : length (insert_part p l) = S (length l).
Proof.
  induction l as [|q l IH]; simpl; [reflexivity|].
  destruct (_ <=? _); simpl; [reflexivity|]. rewrite IH. reflexivity.
Qed.

Lemma length_sort_parts parts : length (sort_parts parts) = length parts.
Proof.
  induction parts as [|p parts IH]; simpl; [reflexivity|].
  rewrite length_insert_part, IH. reflexivity.
Qed.

Lemma sum_size_from parts : forall acc,
  foldl (fun pre cur => pre + size cur) acc parts = acc + sum_size parts.
Proof.
  unfold sum_size. induction parts as [|p parts IH]; intros acc; simpl; [lia|].
  rewrite (IH (acc + size p)), (IH (0 + size p)). lia.
Qed.

Lemma sum_size_cons p parts : sum_size (p :: parts) = size p + sum_size parts.
Proof. unfold sum_size at 1. simpl. rewrite sum_size_from. lia. Qed.

Lemma sum_size_insert_part p l : sum_size (insert_part p l) = size p + sum_size l.
Proof.
  induction l as [|q l IH]; simpl; [apply sum_size_cons|].
  destruct (_ <=? _); [apply sum_size_cons|].
  rewrite !sum_size_cons, IH. lia.
Qed.

(** The order of the listing does not change the total. *)
Lemma sum_size_sort_parts parts : sum_size (sort_parts parts) = sum_size parts.
Proof.
  induction parts as [|p parts IH]; [reflexivity|].
  simpl. rewrite sum_size_insert_part, sum_size_cons, IH. reflexivity.
Qed.

Lemma sum_size_nonneg parts :
  (forall p, p ∈ parts -> 0 <= size p) -> 0 <= sum_size parts.
Proof.
  induction parts as [|p parts IH]; intros H; [unfold sum_size; simpl; lia|].
  unfold sum_size. simpl. rewrite sum_size_from.
  assert (0 <= size p) by (apply H; left).
  assert (0 <= sum_size parts) by (apply IH; intros q Hq; apply H; right; exact Hq).
  lia.
Qed.

(** X20. After the parts accepted by the service were listed (with sizes
    that are not negative), [start] records their total size as
    [_uploadedSize].  If the local file is larger, it emits one ['start']
    event and hands [resume] a plan whose parts add up to exactly the
    bytes beyond that total, contiguous from it and numbered after the
    listed parts, whatever the order of the listing.  If nothing is left
    it emits no ['start'], creates no queue and goes on to complete the
    upload. *)
Theorem onPartsListed_plans_the_rest (parts : list ListedPart) (maxParts fileSize : Z)
    (mt : MultiTransport.MultiTransport) :
  (forall p, p ∈ parts -> 0 <= size p) ->
  let r := onPartsListed parts maxParts fileSize mt in
  Transport._uploadedSize (MultiTransport.base r.1) = Some (Int (sum_size parts)) /\
  (sum_size parts < fileSize ->
   exists ps,
     r.2 = [EmitStart (Transport._uuid (MultiTransport.base mt))
              (Transport._uploadId (MultiTransport.base mt))
              (Transport._localPath (MultiTransport.base mt))] /\
     MultiTransport._queue r.1 = Some (AsyncQueue.push ps (AsyncQueue.create 1)) /\
     MultiTransport.resumed r.1 = MultiTransport.Pending /\
     MultiTransport.sum_sizes ps = Int (fileSize - sum_size parts) /\
     MultiTransport.contiguous_from (Int (sum_size parts)) ps /\
     MultiTransport.numbered_from (Z.of_nat (length parts) + 1) ps) /\
  (fileSize <= sum_size parts ->
   r.2 = [CompleteUpload] /\
   MultiTransport._queue r.1 = MultiTransport._queue mt /\
   MultiTransport.resumed r.1 = MultiTransport.resumed mt).
Proof.
  intros Hsizes. pose proof (sum_size_nonneg parts Hsizes) as Hu.
  cbv zeta. unfold onPartsListed. rewrite sum_size_sort_parts.
  set (u := sum_size parts) in *.
  assert (Hplan : exists ps,
    MultiTransport._decompose (sort_parts parts) maxParts u fileSize = Some ps /\
    MultiTransport.sum_sizes ps = Int (Z.max 0 (fileSize - u)) /\
    MultiTransport.contiguous_from (Int u) ps /\
    MultiTransport.numbered_from (Z.of_nat (length parts) + 1) ps /\
    (fileSize <= u -> ps = [])).
  { unfold MultiTransport._decompose. rewrite length_sort_parts.
    destruct (MultiTransport.averagePartSize_cases fileSize
                (maxParts - Z.of_nat (length parts)))
      as [(a & -> & Ha & _) | [(-> & _ & Hpos) | (-> & _ & ->)]].
    - destruct (MultiTransport.decompose_loop_int
                  (MultiTransport.decompose_fuel u fileSize) a (fileSize - u) u
                  (Z.of_nat (length parts) + 1) Ha
                  (MultiTransport.decompose_fuel_enough _ _))
        as (ps & Hps & Hsum & Hc & Hn & Hlen).
      exists ps. repeat split; auto. intros Hle.
      specialize (Hlen 0%nat ltac:(lia)). destruct ps; [reflexivity|simpl in Hlen; lia].
    - unfold MultiTransport.decompose_fuel. simpl.
      destruct (0 <? fileSize - u) eqn:E.
      + apply Z.ltb_lt in E.
        rewrite MultiTransport.decompose_loop_done
          by (simpl; rewrite Z.sub_diag; reflexivity).
        eexists. split; [reflexivity|]. simpl. repeat split; [f_equal; lia|lia].
      + apply Z.ltb_ge in E. exists []. simpl. repeat split. f_equal. lia.
    - unfold MultiTransport.decompose_fuel. simpl.
      assert (E : (0 <? 0 - u) = false) by (apply Z.ltb_ge; lia).
      rewrite E. exists []. simpl. repeat split. f_equal. lia. }
  destruct Hplan as (ps & -> & Hsum & Hc & Hn & Hempty).
  destruct ps as [|p ps]; simpl; (split; [reflexivity|]); split.
  - intros Hlt. exfalso. simpl in Hsum. injection Hsum as Hsum. lia.
  - intros _. repeat split.
  - intros Hlt. exists (p :: ps).
    split; [reflexivity|]. split; [reflexivity|]. split; [reflexivity|].
    split; [rewrite Hsum; f_equal; lia|]. split; assumption.
  - intros Hle. discriminate (Hempty Hle).
Qed.

(** Parts 2 and 1, listed in that order, of 20 MiB each, for a file of
    55 MiB. *)
Lemma onPartsListed_plans_the_rest_witness :
  let parts := [mkListedPart 2 (20 * MultiTransport.MiB);
                mkListedPart 1 (20 * MultiTransport.MiB)] in
  let mt := MultiTransport.mkMultiTransport Transport.sample None None
              MultiTransport.Resolved in
  let r := onPartsListed parts 1000 (55 * MultiTransport.MiB) mt in
  Transport._uploadedSize (MultiTransport.base r.1) = Some (Int (sum_size parts)) /\
  (sum_size parts < 55 * MultiTransport.MiB ->
   exists ps,
     r.2 = [EmitStart (Transport._uuid (MultiTransport.base mt))
              (Transport._uploadId (MultiTransport.base mt))
              (Transport._localPath (MultiTransport.base mt))] /\
     MultiTransport._queue r.1 = Some (AsyncQueue.push ps (AsyncQueue.create 1)) /\
     MultiTransport.resumed r.1 = MultiTransport.Pending /\
     MultiTransport.sum_sizes ps = Int (55 * MultiTransport.MiB - sum_size parts) /\
     MultiTransport.contiguous_from (Int (sum_size parts)) ps /\
     MultiTransport.numbered_from (Z.of_nat (length parts) + 1) ps) /\
  (55 * MultiTransport.MiB <= sum_size parts ->
   r.2 = [CompleteUpload] /\
   MultiTransport._queue r.1 = MultiTransport._queue mt /\
   MultiTransport.resumed r.1 = MultiTransport.resumed mt).
Proof.
  apply (onPartsListed_plans_the_rest
           [mkListedPart 2 (20 * MultiTransport.MiB);
            mkListedPart 1 (20 * MultiTransport.MiB)]
           1000 (55 * MultiTransport.MiB)
           (MultiTransport.mkMultiTransport Transport.sample None None
              MultiTransport.Resolved)).
  intros p Hp. apply elem_of_cons in Hp as [->|Hp]; [vm_compute; congruence|].
  apply elem_of_cons in Hp as [->|Hp]; [vm_compute; congruence|]. inversion Hp.
Defined.

End UploadStart.
